(** * Embedded wallet SDK: the iframe link resolver, the communicators,
      the cross-context channel and the EmbeddedWallet class.

    Shallow embedding of
      - src/utils/iFrameCommunication/EmbeddedWalletIframeCommunicator.ts
      - src/utils/iFrameCommunication/EmbeddedWalletUiIframeCommunicator.ts
      - src/lib/EmbeddedWallets/EmbeddedWallet.ts
    The definitions come first, the theorems about them follow. *)

From Stdlib Require Import String Ascii List Bool Lia DecimalString.
From stdpp Require Import base option list strings gmap.
Import ListNotations.

Local Open Scope string_scope.

(** ** The platform: what the browser and the settings module provide *)

(** A parsed [URL] object.  Only [searchParams] is touched by the code; the
    other components are kept as the parser produced them. *)
Record URL := mkURL {
  url_location : string;                    (* scheme, authority and path *)
  searchParams : list (string * string);    (* the URLSearchParams list, in order *)
  url_hash : string                         (* fragment *)
}.

(** [constants/settings], [lib/Modal/styles] and the DOM are not among the
    sources: their constants and the platform's URL parser are parameters.
    [new_URL input base] is [new URL(input, base)]; [None] is the [TypeError]
    it throws on an input it cannot parse.  [number] is the JS number type,
    of which the code only uses [toString]. *)
Class Platform := {
  number : Type;
  Number_toString : number -> string;
  new_URL : string -> string -> option URL;
  URL_href : URL -> string;
  PAPER_APP_URL : string;
  EMBEDDED_WALLET_PATH : string;
  HTMLElement : Type;
  document_body : HTMLElement;
  StyleObject : Type;
  getDefaultModalStyles_iframe : StyleObject
}.

(** ** JavaScript values and plain objects *)

Module Js.

(** A value stored under a key of [queryParams].  The declared type is
    [string | number]; [undefined] and [null] are what the optional chaining
    in the source guards against. *)
Inductive value `{Platform} :=
| VString (s : string)
| VNumber (n : number)
| VUndefined
| VNull.

(** A plain object: its own enumerable string keys in enumeration order. *)
Definition object `{Platform} := list (string * value).

(** [Object.keys(o)] *)
Definition Object_keys `{Platform} (o : object) : list string := map fst o.

(** [o[k]]: the value under [k], [undefined] when [o] has no such key. *)
Fixpoint get_property `{Platform} (o : object) (k : string) : value :=
  match o with
  | [] => VUndefined
  | (k', v) :: rest => if String.eqb k' k then v else get_property rest k
  end.

(** [v?.toString()]: [None] is [undefined]. *)
Definition optional_toString `{Platform} (v : value) : option string :=
  match v with
  | VUndefined | VNull => None
  | VString s => Some s
  | VNumber n => Some (Number_toString n)
  end.

(** Truthiness of a string: only the empty string is falsy. *)
Definition truthy (s : string) : bool := negb (String.eqb s "").

(** [x || d] for [x : string | undefined]. *)
Definition or_else (x : option string) (d : string) : string :=
  match x with
  | Some s => if truthy s then s else d
  | None => d
  end.

End Js.

(** ** URLSearchParams *)

Module UrlSearchParams.

Definition has_name (name : string) (p : string * string) : bool :=
  String.eqb (fst p) name.

(** [set(name, value)]: if there are pairs named [name], the first gets the
    value and the others are removed; otherwise a pair is appended. *)
Fixpoint set (name value : string) (l : list (string * string))
  : list (string * string) :=
  match l with
  | [] => [(name, value)]
  | p :: rest =>
      if has_name name p
      then (name, value) :: List.filter (fun q => negb (has_name name q)) rest
      else p :: set name value rest
  end.

(** [get(name)]: the value of the first pair named [name], or [null]. *)
Definition get (name : string) (l : list (string * string)) : option string :=
  option_map snd (List.find (has_name name) l).

(** [getAll(name).length] *)
Definition count (name : string) (l : list (string * string)) : nat :=
  length (List.filter (has_name name) l).

End UrlSearchParams.

(** [url.searchParams.set(name, value)] *)
Definition URL_searchParams_set (name value : string) (u : URL) : URL :=
  {| url_location := url_location u;
     searchParams := UrlSearchParams.set name value (searchParams u);
     url_hash := url_hash u |}.

(** ** createEmbeddedWalletIframeLink *)

Module Resolver.
Import Js.

(** Body of the [for ... of Object.keys(queryParams)] loop. *)
Definition set_query_key `{Platform} (queryParams : object)
    (embeddedWalletUrl : URL) (queryKey : string) : URL :=
  URL_searchParams_set queryKey
    (or_else (optional_toString (get_property queryParams queryKey)) "")
    embeddedWalletUrl.

(** [createEmbeddedWalletIframeLink({clientId, path, queryParams})];
    [queryParams = None] is the omitted (undefined) argument. *)
Definition createEmbeddedWalletIframeLink `{Platform}
    (clientId path : string) (queryParams : option object) : option URL :=
  match new_URL path PAPER_APP_URL with
  | None => None
  | Some embeddedWalletUrl =>
      let embeddedWalletUrl :=
        URL_searchParams_set "clientId" clientId embeddedWalletUrl in
      Some (match queryParams with
            | Some queryParams =>
                fold_left (set_query_key queryParams)
                          (Object_keys queryParams) embeddedWalletUrl
            | None => embeddedWalletUrl
            end)
  end.

(** The calls of [searchParams.set] an invocation makes, in the order it
    makes them: the identity token first, then one per key of the mapping. *)
Definition assignments `{Platform} (clientId : string)
    (queryParams : option object) : list (string * string) :=
  ("clientId", clientId)
  :: match queryParams with
     | Some queryParams =>
         map (fun queryKey =>
                (queryKey,
                 or_else (optional_toString (get_property queryParams queryKey)) ""))
             (Object_keys queryParams)
     | None => []
     end.

(** The value the last of a series of assignments gives to a name. *)
Definition last_assigned (name : string) (sets : list (string * string))
  : option string :=
  UrlSearchParams.get name (rev sets).

End Resolver.

(** ** The resolver over a store of mutable objects

    The same function with the objects it touches made explicit: the
    [queryParams] object is passed by reference, [new URL] allocates a fresh
    [URL] object, and [searchParams.set] updates that object in place. *)

Module Store.
Import Js.

Definition loc := nat.

Inductive cell `{Platform} :=
| CObject (o : object)
| CUrl (u : URL).

Abbreviation heap := (gmap loc cell).

(** Computations over the store that may throw ([None]). *)
Definition M `{Platform} (A : Type) : Type := heap -> option (A * heap).

Definition ret `{Platform} {A} (a : A) : M A := fun h => Some (a, h).

Definition bind `{Platform} {A B} (m : M A) (f : A -> M B) : M B :=
  fun h => match m h with
           | Some (a, h') => f a h'
           | None => None
           end.

(** [new URL(input, base)]: a fresh object, or the parser's [TypeError]. *)
Definition construct_URL `{Platform} (input base : string) : M loc :=
  fun h => match new_URL input base with
           | Some u => let l := fresh (dom h) in Some (l, <[l := CUrl u]> h)
           | None => None
           end.

(** [url.searchParams.set(name, value)] on the object at [url]. *)
Definition searchParams_set `{Platform} (url : loc) (name value : string)
  : M unit :=
  fun h => match h !! url with
           | Some (CUrl u) =>
               Some (tt, <[url := CUrl (URL_searchParams_set name value u)]> h)
           | _ => None
           end.

(** [Object.keys(o)] on the object at [o]. *)
Definition Object_keys_at `{Platform} (o : loc) : M (list string) :=
  fun h => match h !! o with
           | Some (CObject obj) => Some (Object_keys obj, h)
           | _ => None
           end.

(** [o[k]] on the object at [o]. *)
Definition get_property_at `{Platform} (o : loc) (k : string) : M value :=
  fun h => match h !! o with
           | Some (CObject obj) => Some (get_property obj k, h)
           | _ => None
           end.

(** [for (const x of xs) body(x)] *)
Fixpoint for_of `{Platform} {A} (xs : list A) (body : A -> M unit) : M unit :=
  match xs with
  | [] => ret tt
  | x :: rest => bind (body x) (fun _ => for_of rest body)
  end.

Definition createEmbeddedWalletIframeLink `{Platform}
    (clientId path : string) (queryParams : option loc) : M loc :=
  bind (construct_URL path PAPER_APP_URL) (fun embeddedWalletUrl =>
  bind (searchParams_set embeddedWalletUrl "clientId" clientId) (fun _ =>
  bind (match queryParams with
        | Some queryParams =>
            bind (Object_keys_at queryParams) (fun keys =>
            for_of keys (fun queryKey =>
              bind (get_property_at queryParams queryKey) (fun v =>
              searchParams_set embeddedWalletUrl queryKey
                (or_else (optional_toString v) ""))))
        | None => ret tt
        end) (fun _ =>
  ret embeddedWalletUrl))).

(** What a caller sees of an invocation: the [URL] value of the returned
    object, or [None] when the call threw. *)
Definition returned_URL `{Platform} (r : option (loc * heap)) : option URL :=
  match r with
  | Some (l, h') => match h' !! l with
                    | Some (CUrl u) => Some u
                    | _ => None
                    end
  | None => None
  end.

(** The mapping an argument denotes in a store; [None] is an argument that
    is not a plain object. *)
Definition mapping_of `{Platform} (h : heap) (queryParams : option loc)
  : option (option object) :=
  match queryParams with
  | None => Some None
  | Some l => match h !! l with
              | Some (CObject o) => Some (Some o)
              | _ => None
              end
  end.

End Store.

(** ** The two communicators *)

Module Communicators.
Import Js.

Definition EMBEDDED_WALLET_IFRAME_ID : string :=
  "paper-embedded-wallet-iframe".

Definition EMBEDDED_WALLET_MODAL_UI_IFRAME_ID : string :=
  "paper-embedded-wallet-modal-iframe".

(** The argument object both constructors hand to [super(...)].  The
    callback is a host function; it is kept as an opaque handle. *)
Record IframeCommunicatorArgs `{Platform} := {
  iframeId : string;
  link : string;
  container : HTMLElement;
  iframeStyles : option StyleObject;
  onIframeInitialize : option nat
}.

(** An instance: which class built it, what the base class was given, and
    the [clientId] field of [EmbeddedWalletIframeCommunicator]. *)
Inductive communicator `{Platform} :=
| EmbeddedWalletIframeCommunicator
    (base : IframeCommunicatorArgs) (clientId : string)
| EmbeddedWalletUiIframeCommunicator
    (base : IframeCommunicatorArgs).

Definition base_args `{Platform} (c : communicator) : IframeCommunicatorArgs :=
  match c with
  | EmbeddedWalletIframeCommunicator base _ => base
  | EmbeddedWalletUiIframeCommunicator base => base
  end.

Definition same_class `{Platform} (c1 c2 : communicator) : bool :=
  match c1, c2 with
  | EmbeddedWalletIframeCommunicator _ _, EmbeddedWalletIframeCommunicator _ _
  | EmbeddedWalletUiIframeCommunicator _, EmbeddedWalletUiIframeCommunicator _ =>
      true
  | _, _ => false
  end.

(** The context identity of a channel. *)
Definition context_id `{Platform} (c : communicator) : string :=
  iframeId (base_args c).

(** [new EmbeddedWalletIframeCommunicator({clientId, customizationOptions})] *)
Definition new_EmbeddedWalletIframeCommunicator `{Platform}
    (clientId : string) (customizationOptions : option object)
  : option communicator :=
  match Resolver.createEmbeddedWalletIframeLink
          clientId EMBEDDED_WALLET_PATH customizationOptions with
  | None => None
  | Some url =>
      Some (EmbeddedWalletIframeCommunicator
              {| iframeId := EMBEDDED_WALLET_IFRAME_ID;
                 link := URL_href url;
                 container := document_body;
                 iframeStyles := None;
                 onIframeInitialize := None |}
              clientId)
  end.

(** [new EmbeddedWalletUiIframeCommunicator({clientId, path, container,
    customizationOptions, iframeStyles, onIframeInitialize})]; an omitted
    [iframeStyles] takes the default of the modal styles. *)
Definition new_EmbeddedWalletUiIframeCommunicator `{Platform}
    (clientId path : string) (container : HTMLElement)
    (customizationOptions : option object)
    (iframeStyles : option StyleObject) (onIframeInitialize : option nat)
  : option communicator :=
  let iframeStyles := default getDefaultModalStyles_iframe iframeStyles in
  let queryParams := customizationOptions in
  match Resolver.createEmbeddedWalletIframeLink clientId path queryParams with
  | None => None
  | Some url =>
      Some (EmbeddedWalletUiIframeCommunicator
              {| iframeId := EMBEDDED_WALLET_MODAL_UI_IFRAME_ID;
                 link := URL_href url;
                 container := container;
                 iframeStyles := Some iframeStyles;
                 onIframeInitialize := onIframeInitialize |})
  end.

(** A constructor call, as data. *)
Inductive construction `{Platform} :=
| NewEmbeddedWalletIframeCommunicator
    (clientId : string) (customizationOptions : option object)
| NewEmbeddedWalletUiIframeCommunicator
    (clientId path : string) (container : HTMLElement)
    (customizationOptions : option object)
    (iframeStyles : option StyleObject) (onIframeInitialize : option nat).

Definition construct `{Platform} (c : construction) : option communicator :=
  match c with
  | NewEmbeddedWalletIframeCommunicator clientId customizationOptions =>
      new_EmbeddedWalletIframeCommunicator clientId customizationOptions
  | NewEmbeddedWalletUiIframeCommunicator
      clientId path container customizationOptions iframeStyles cb =>
      new_EmbeddedWalletUiIframeCommunicator
        clientId path container customizationOptions iframeStyles cb
  end.

(** The channels live on a page after a series of constructor calls, none
    of which is closed; [None] when one of the constructors threw. *)
Fixpoint live_channels `{Platform} (cs : list construction)
  : option (list communicator) :=
  match cs with
  | [] => Some []
  | c :: rest =>
      match construct c, live_channels rest with
      | Some ch, Some chs => Some (ch :: chs)
      | _, _ => None
      end
  end.

(** Results of the three getters of [utils/Storage/LocalStorage] (not
    among the sources) that the initializer awaits. *)
Record StoredValues := {
  getAuthCookie : option string;
  getDeviceShare : option string;
  getWalletUserId : option string
}.

Record InitVariables := {
  authCookie : option string;
  deviceShareStored : option string;
  walletUserId : option string;
  init_clientId : string
}.

(** [onIframeLoadedInitVariables()] of [EmbeddedWalletIframeCommunicator];
    [localStorage] gives what the store scoped to a client id holds. *)
Definition onIframeLoadedInitVariables
    (this_clientId : string) (localStorage : string -> StoredValues)
  : InitVariables :=
  let localStorage := localStorage this_clientId in
  {| authCookie := getAuthCookie localStorage;
     deviceShareStored := getDeviceShare localStorage;
     walletUserId := getWalletUserId localStorage;
     init_clientId := this_clientId |}.

End Communicators.

(** ** The cross-context channel

    Modelled from the spec: the base class [IframeCommunicator] (the readiness
    handshake, [call], the pending call table and [close]) is not among the
    sources; the two communicators above only extend it.  The state machine
    below follows sections 3, 4.1 and 5 of the specification. *)

Module Channel.

(** Modelled from the spec: the lifecycle states of a channel (missing:
    the state of [IframeCommunicator]). *)
Inductive Lifecycle := UNATTACHED | LOADING | READY | CLOSED.

(** Modelled from the spec: the errors a call can settle with (missing:
    the error surface of [IframeCommunicator.call]). *)
Inductive CallError :=
| RemoteProcedureError (errorMessage : string)
| Timeout
| ChannelClosed.

Section Protocol.
(** The initialization payload, the parameters and the results are opaque
    to the transport. *)
Context {Payload Params Result : Type}.

(** Modelled from the spec: how a call settles (missing: the promise
    returned by [IframeCommunicator.call]). *)
Inductive Settlement :=
| Resolved (result : Result)
| Rejected (e : CallError).

(** Modelled from the spec: the outbound wire messages (missing: the
    messages [IframeCommunicator] posts). *)
Inductive Outbound :=
| InitMessage (payload : Payload)
| CallMessage (correlationId : nat) (procedureName : string) (params : Params).

(** Modelled from the spec: the construction inputs of a channel (missing:
    the constructor of [IframeCommunicator]). *)
Record Config := {
  contextId : string;
  targetAddress : string;
  mountPoint : bool;                 (* is a mounting point given *)
  onReady : bool;                    (* is the caller hook given *)
  initializer : unit -> Payload
}.

(** Modelled from the spec: the state of one channel (missing: the fields
    of [IframeCommunicator]).  [wire] and [settled] record, oldest first,
    what the channel has sent and how it has settled its calls;
    [initializerCalls] and [onReadyCalls] count the invocations of the two
    caller-supplied functions. *)
Record State := {
  lifecycle : Lifecycle;
  listening : bool;
  mounted : bool;
  nextCorrelationId : nat;
  pending : list nat;
  queue : list Outbound;
  wire : list Outbound;
  settled : list (nat * Settlement);
  initializerCalls : nat;
  onReadyCalls : nat
}.

(** Modelled from the spec: what happens to a channel (missing: the
    methods and the message listener of [IframeCommunicator]). *)
Inductive Event :=
| BeginLoading
| ReadinessSignal
| Call (procedureName : string) (params : Params)
| Response (correlationId : nat) (outcome : Result + string)
| TimerFired (correlationId : nat)
| Close.

Variable cfg : Config.

(** Modelled from the spec: construction (missing: the constructor of
    [IframeCommunicator]).  The channel is created [UNATTACHED], with its
    one inbound listener registered. *)
Definition create : State :=
  {| lifecycle := UNATTACHED; listening := true; mounted := mountPoint cfg;
     nextCorrelationId := 0; pending := []; queue := []; wire := [];
     settled := []; initializerCalls := 0; onReadyCalls := 0 |}.

(** Modelled from the spec: the embedded surface begins loading. *)
Definition on_begin_loading (c : State) : State :=
  match lifecycle c with
  | UNATTACHED =>
      {| lifecycle := LOADING; listening := listening c; mounted := mounted c;
         nextCorrelationId := nextCorrelationId c; pending := pending c;
         queue := queue c; wire := wire c; settled := settled c;
         initializerCalls := initializerCalls c;
         onReadyCalls := onReadyCalls c |}
  | _ => c
  end.

(** Modelled from the spec: the readiness handshake (missing: the load
    handler of [IframeCommunicator]).  On the first receipt the channel
    becomes [READY], invokes the initializer, sends the payload as the
    init message, invokes [onReady] if given, and flushes the queued
    calls in order; later receipts are ignored. *)
Definition on_readiness_signal (c : State) : State :=
  match lifecycle c with
  | UNATTACHED | LOADING =>
      if listening c then
        let payload := initializer cfg tt in
        {| lifecycle := READY; listening := true; mounted := mounted c;
           nextCorrelationId := nextCorrelationId c; pending := pending c;
           queue := [];
           wire := wire c ++ InitMessage payload :: queue c;
           settled := settled c;
           initializerCalls := S (initializerCalls c);
           onReadyCalls :=
             if onReady cfg then S (onReadyCalls c) else onReadyCalls c |}
      else c
  | READY | CLOSED => c
  end.

(** Modelled from the spec: [call(procedureName, params)] (missing:
    [IframeCommunicator.call]).  A fresh correlation identifier, a pending
    entry, and the message sent, or queued while not yet [READY].  The
    spec does not say what a call on a [CLOSED] channel does; here it is
    rejected at once and nothing is registered or sent. *)
Definition on_call (procedureName : string) (params : Params) (c : State)
  : State :=
  let correlationId := nextCorrelationId c in
  let message := CallMessage correlationId procedureName params in
  match lifecycle c with
  | CLOSED =>
      {| lifecycle := CLOSED; listening := listening c; mounted := mounted c;
         nextCorrelationId := S correlationId; pending := pending c;
         queue := queue c; wire := wire c;
         settled := settled c ++ [(correlationId, Rejected ChannelClosed)];
         initializerCalls := initializerCalls c;
         onReadyCalls := onReadyCalls c |}
  | READY =>
      {| lifecycle := READY; listening := listening c; mounted := mounted c;
         nextCorrelationId := S correlationId;
         pending := pending c ++ [correlationId];
         queue := queue c; wire := wire c ++ [message];
         settled := settled c;
         initializerCalls := initializerCalls c;
         onReadyCalls := onReadyCalls c |}
  | st =>
      {| lifecycle := st; listening := listening c; mounted := mounted c;
         nextCorrelationId := S correlationId;
         pending := pending c ++ [correlationId];
         queue := queue c ++ [message]; wire := wire c;
         settled := settled c;
         initializerCalls := initializerCalls c;
         onReadyCalls := onReadyCalls c |}
  end.

(** Modelled from the spec: removal of a pending entry on settlement. *)
Definition settle (correlationId : nat) (s : Settlement) (c : State) : State :=
  {| lifecycle := lifecycle c; listening := listening c; mounted := mounted c;
     nextCorrelationId := nextCorrelationId c;
     pending := List.filter (fun i => negb (Nat.eqb i correlationId)) (pending c);
     queue := queue c; wire := wire c;
     settled := settled c ++ [(correlationId, s)];
     initializerCalls := initializerCalls c;
     onReadyCalls := onReadyCalls c |}.

(** Modelled from the spec: the lookup in the pending call table. *)
Definition is_pending (correlationId : nat) (c : State) : bool :=
  existsb (Nat.eqb correlationId) (pending c).

(** Modelled from the spec: an inbound procedure result (missing: the
    message listener of [IframeCommunicator]).  A message whose
    correlation id has no pending entry is ignored. *)
Definition on_response (correlationId : nat) (outcome : Result + string)
    (c : State) : State :=
  if listening c && is_pending correlationId c then
    settle correlationId
      (match outcome with
       | inl result => Resolved result
       | inr errorMessage => Rejected (RemoteProcedureError errorMessage)
       end) c
  else c.

(** Modelled from the spec: the timeout of a call; the timer of a settled
    call has been cleared. *)
Definition on_timer (correlationId : nat) (c : State) : State :=
  if is_pending correlationId c
  then settle correlationId (Rejected Timeout) c
  else c.

(** Modelled from the spec: [close()] (missing: the teardown of
    [IframeCommunicator]).  Detaches the listener, removes the embedded
    context, becomes [CLOSED] and rejects every pending call; a no-op on
    a channel that is already [CLOSED]. *)
Definition close (c : State) : State :=
  match lifecycle c with
  | CLOSED => c
  | _ =>
      {| lifecycle := CLOSED; listening := false; mounted := false;
         nextCorrelationId := nextCorrelationId c;
         pending := [];
         queue := [];
         wire := wire c;
         settled :=
           settled c ++ map (fun i => (i, Rejected ChannelClosed)) (pending c);
         initializerCalls := initializerCalls c;
         onReadyCalls := onReadyCalls c |}
  end.

(** Modelled from the spec: one event handled by the channel; the
    scheduling is single-threaded, one callback at a time. *)
Definition step (c : State) (e : Event) : State :=
  match e with
  | BeginLoading => on_begin_loading c
  | ReadinessSignal => on_readiness_signal c
  | Call procedureName params => on_call procedureName params c
  | Response correlationId outcome => on_response correlationId outcome c
  | TimerFired correlationId => on_timer correlationId c
  | Close => close c
  end.

(** Modelled from the spec: the channel after a history of events,
    oldest first. *)
Definition run (history : list Event) : State := fold_left step history create.

Definition is_init (m : Outbound) : bool :=
  match m with InitMessage _ => true | CallMessage _ _ _ => false end.

(** Number of init messages on the wire. *)
Definition init_messages_sent (c : State) : nat :=
  length (List.filter is_init (wire c)).

(** Does the history deliver a readiness signal to the channel, that is,
    before any [close()]? *)
Fixpoint readiness_received (history : list Event) : bool :=
  match history with
  | [] => false
  | ReadinessSignal :: _ => true
  | Close :: _ => false
  | _ :: rest => readiness_received rest
  end.

(** Only calls wait in the queue. *)
Definition queue_of_calls (c : State) : Prop :=
  Forall (fun m => is_init m = false) (queue c).

(** Before the handshake the channel listens, and its queue holds calls. *)
Definition awaiting_readiness (c : State) : Prop :=
  (lifecycle c = UNATTACHED \/ lifecycle c = LOADING)
  /\ listening c = true
  /\ queue_of_calls c.

End Protocol.

Arguments Settlement : clear implicits.
Arguments Outbound : clear implicits.
Arguments Config : clear implicits.
Arguments State : clear implicits.
Arguments Event : clear implicits.

End Channel.

(** ** The EmbeddedWallet class *)

Module Wallet.

(** Object identities. *)
Definition ref := nat.

(** [Chain] is a union of string literals. *)
Definition Chain := string.

(** The statuses of [UserWalletStatus], as the documentation of
    [getUserWalletStatus] lists them. *)
Inductive UserWalletStatus :=
| LOGGED_OUT
| LOGGED_IN_WALLET_UNINITIALIZED
| LOGGED_IN_NEW_DEVICE
| LOGGED_IN_WALLET_INITIALIZED.

Definition UserWalletStatus_eqb (a b : UserWalletStatus) : bool :=
  match a, b with
  | LOGGED_OUT, LOGGED_OUT
  | LOGGED_IN_WALLET_UNINITIALIZED, LOGGED_IN_WALLET_UNINITIALIZED
  | LOGGED_IN_NEW_DEVICE, LOGGED_IN_NEW_DEVICE
  | LOGGED_IN_WALLET_INITIALIZED, LOGGED_IN_WALLET_INITIALIZED => true
  | _, _ => false
  end.

(** [GaslessTransactionMaker] and [LocalStorage] are not among the sources:
    an instance is what its constructor was given. *)
Record GaslessTransactionMaker := {
  gasless_chain : Chain;
  gasless_clientId : string;
  gasless_querier : ref
}.

Record LocalStorage := { storage_clientId : string }.

(** The fields of an [EmbeddedWallet]; objects are held by reference. *)
Record EmbeddedWallet := {
  clientId : string;
  chain : Chain;
  walletManagerQuerier : ref;
  localStorage : ref;
  gasless : ref
}.

Inductive object :=
| OWallet (w : EmbeddedWallet)
| OGasless (g : GaslessTransactionMaker)
| OLocalStorage (s : LocalStorage).

(** [SetUpWalletRpcReturnType] and [WalletAddressObjectType] *)
Record SetUpWalletRpcReturnType := {
  deviceShareStored : string;
  walletAddress : string;
  isIframeStorageEnabled : bool
}.

Record WalletAddressObjectType := { address_walletAddress : string }.

Section Methods.
(** Values that cross the frame boundary are opaque data. *)
Context {Data : Type}.

(** A field of the [user] object: data of the remote side, or the wallet
    instance that [getUserWalletStatus] adds. *)
Inductive field :=
| FData (d : Data)
| FWallet (this : ref).

Definition user_object := list (string * field).

(** [GetUserWalletStatusRpcReturnType] and
    [GetUserWalletStatusFnReturnType]: a status and the user's details,
    [undefined] ([None]) for a logged-out user. *)
Record UserStatus := {
  status : UserWalletStatus;
  user : option user_object
}.

(** What the code does to its collaborators. *)
Inductive Effect :=
| RemoteCall (querier : ref) (procedureName : string) (params : option Data)
| SaveDeviceShare (storageClientId : string) (share : string).

Inductive Thrown :=
| TypeError
| RemoteRejection (reason : Data).

(** A settled promise. *)
Inductive Outcome (A : Type) :=
| Fulfilled (a : A)
| Threw (e : Thrown).
Arguments Fulfilled {A} a.
Arguments Threw {A} e.

Record world := {
  objects : gmap ref object;
  effects : list Effect
}.

Definition M (A : Type) : Type := world -> Outcome A * world.

Definition ret {A} (a : A) : M A := fun w => (Fulfilled a, w).

Definition bind {A B} (m : M A) (f : A -> M B) : M B :=
  fun w => match m w with
           | (Fulfilled a, w') => f a w'
           | (Threw e, w') => (Threw e, w')
           end.

Definition new (o : object) : M ref :=
  fun w => let r := fresh (dom (objects w)) in
           (Fulfilled r,
            {| objects := <[r := o]> (objects w); effects := effects w |}).

(** Reading [this]. *)
Definition self (this : ref) : M EmbeddedWallet :=
  fun w => match objects w !! this with
           | Some (OWallet wal) => (Fulfilled wal, w)
           | _ => (Threw TypeError, w)
           end.

Definition assign (this : ref) (f : EmbeddedWallet -> EmbeddedWallet) : M unit :=
  fun w => match objects w !! this with
           | Some (OWallet wal) =>
               (Fulfilled tt,
                {| objects := <[this := OWallet (f wal)]> (objects w);
                   effects := effects w |})
           | _ => (Threw TypeError, w)
           end.

Definition with_chain (c : Chain) (wal : EmbeddedWallet) : EmbeddedWallet :=
  {| clientId := clientId wal; chain := c;
     walletManagerQuerier := walletManagerQuerier wal;
     localStorage := localStorage wal; gasless := gasless wal |}.

Definition with_gasless (g : ref) (wal : EmbeddedWallet) : EmbeddedWallet :=
  {| clientId := clientId wal; chain := chain wal;
     walletManagerQuerier := walletManagerQuerier wal;
     localStorage := localStorage wal; gasless := g |}.

Definition with_localStorage (s : ref) (wal : EmbeddedWallet) : EmbeddedWallet :=
  {| clientId := clientId wal; chain := chain wal;
     walletManagerQuerier := walletManagerQuerier wal;
     localStorage := s; gasless := gasless wal |}.

Definition perform (e : Effect) : M unit :=
  fun w => (Fulfilled tt,
            {| objects := objects w; effects := effects w ++ [e] |}).

(** [localStorage.saveDeviceShare(share)] on the [LocalStorage] object at
    [s]: recorded with the client id the store is scoped to. *)
Definition saveDeviceShare (s : ref) (share : string) : M unit :=
  fun w => match objects w !! s with
           | Some (OLocalStorage st) =>
               perform (SaveDeviceShare (storage_clientId st) share) w
           | _ => (Threw TypeError, w)
           end.

(** What the embedded context answers to the last call of a history of
    effects: the awaited promise fulfils with a status or rejects. *)
Variable remote : list Effect -> Outcome UserStatus.

(** [await querier.call({procedureName, params})] *)
Definition call (querier : ref) (procedureName : string)
    (params : option Data) : M UserStatus :=
  fun w =>
    let sent := (effects w ++ [RemoteCall querier procedureName params])%list in
    (remote sent, {| objects := objects w; effects := sent |}).

(** [new EmbeddedWallet({clientId, chain, querier})]; the two fields
    that are assigned last hold a placeholder until then. *)
Definition constructor (clientId : string) (chain : Chain) (querier : ref)
  : M ref :=
  bind (new (OWallet {| clientId := clientId; chain := chain;
                        walletManagerQuerier := querier;
                        localStorage := 0; gasless := 0 |})) (fun this =>
  bind (new (OGasless {| gasless_chain := chain;
                         gasless_clientId := clientId;
                         gasless_querier := querier |})) (fun g =>
  bind (assign this (with_gasless g)) (fun _ =>
  bind (new (OLocalStorage {| storage_clientId := clientId |})) (fun s =>
  bind (assign this (with_localStorage s)) (fun _ =>
  ret this))))).

Definition postWalletSetUp (this : ref) (arg : SetUpWalletRpcReturnType)
  : M WalletAddressObjectType :=
  bind (if negb (isIframeStorageEnabled arg)
        then bind (self this) (fun wal =>
             saveDeviceShare (localStorage wal) (deviceShareStored arg))
        else ret tt) (fun _ =>
  ret {| address_walletAddress := walletAddress arg |}).

(** [{...o, k: v}]: the key keeps its place when [o] has it. *)
Fixpoint set_field (k : string) (v : field) (o : user_object) : user_object :=
  match o with
  | [] => [(k, v)]
  | (k', v') :: rest =>
      if String.eqb k' k then (k', v) :: rest
      else (k', v') :: set_field k v rest
  end.

Fixpoint get_field (k : string) (o : user_object) : option field :=
  match o with
  | [] => None
  | (k', v') :: rest => if String.eqb k' k then Some v' else get_field k rest
  end.

(** [{...x}] for [x] an object or [undefined]. *)
Definition spread (x : option user_object) : user_object := default [] x.

Definition getUserWalletStatus (this : ref) : M UserStatus :=
  bind (self this) (fun wal =>
  bind (call (walletManagerQuerier wal) "getUserStatus" None) (fun userStatus =>
  if UserWalletStatus_eqb (status userStatus) LOGGED_IN_WALLET_INITIALIZED
  then ret {| status := LOGGED_IN_WALLET_INITIALIZED;
              user := Some (set_field "wallet" (FWallet this)
                                      (spread (user userStatus))) |}
  else ret userStatus)).

Definition setChain (this : ref) (chain : Chain) : M unit :=
  bind (assign this (with_chain chain)) (fun _ =>
  bind (self this) (fun wal =>
  bind (new (OGasless {| gasless_chain := chain;
                         gasless_clientId := clientId wal;
                         gasless_querier := walletManagerQuerier wal |}))
       (fun g =>
  assign this (with_gasless g)))).

(** The invariant the constructor sets up: [this] is a wallet whose
    [localStorage] is the store scoped to its client id. *)
Definition wallet_at (w : world) (this : ref) (wal : EmbeddedWallet) : Prop :=
  objects w !! this = Some (OWallet wal) /\
  objects w !! localStorage wal
    = Some (OLocalStorage {| storage_clientId := clientId wal |}).

End Methods.

Arguments field : clear implicits.
Arguments user_object : clear implicits.
Arguments UserStatus : clear implicits.
Arguments Effect : clear implicits.
Arguments Thrown : clear implicits.
Arguments Outcome : clear implicits.
Arguments world : clear implicits.
Arguments Fulfilled {Data A} a.
Arguments Threw {Data A} e.

End Wallet.

(** ** A platform to evaluate the definitions on

    A stand-in for the browser: its numbers are the naturals, printed in
    decimal, and its parser only knows a base of the form [https://host] with
    or without a trailing slash and an input that is an absolute path without
    query or fragment; everything else it rejects. *)

Module Example.

Fixpoint contains (c : Ascii.ascii) (s : string) : bool :=
  match s with
  | EmptyString => false
  | String a rest => Ascii.eqb a c || contains c rest
  end.

Fixpoint drop_trailing_slash (s : string) : string :=
  match s with
  | EmptyString => EmptyString
  | String a EmptyString => if Ascii.eqb a "/"%char then EmptyString else s
  | String a rest => String a (drop_trailing_slash rest)
  end.

Definition host_of (base : string) : option string :=
  if String.prefix "https://" base then
    let host := drop_trailing_slash (String.substring 8 (String.length base - 8) base) in
    if contains "/"%char host || String.eqb host "" then None else Some host
  else None.

Definition is_plain_absolute_path (input : string) : bool :=
  String.prefix "/" input && negb (contains "?"%char input) && negb (contains "#"%char input).

Definition parse (input base : string) : option URL :=
  match host_of base with
  | Some host =>
      if is_plain_absolute_path input
      then Some {| url_location := "https://" ++ host ++ input;
                   searchParams := [];
                   url_hash := "" |}
      else None
  | None => None
  end.

Fixpoint query_string (l : list (string * string)) : string :=
  match l with
  | [] => ""
  | [(k, v)] => k ++ "=" ++ v
  | (k, v) :: rest => k ++ "=" ++ v ++ "&" ++ query_string rest
  end.

Definition href (u : URL) : string :=
  url_location u
  ++ (match searchParams u with [] => "" | l => "?" ++ query_string l end)
  ++ url_hash u.

Definition browser (base : string) : Platform :=
  {| number := nat;
     Number_toString := fun n => NilEmpty.string_of_uint (Nat.to_uint n);
     new_URL := parse;
     URL_href := href;
     PAPER_APP_URL := base;
     EMBEDDED_WALLET_PATH := "/embedded-wallet";
     HTMLElement := string;
     document_body := "body";
     StyleObject := list (string * string);
     getDefaultModalStyles_iframe := [] |}.

Definition paper : Platform := browser "https://withpaper.com".

Definition theme_dark : @Js.object paper := [("theme", Js.VString "dark")].

(** Two stores that hold the same mapping at different places. *)
Definition store1 : gmap Store.loc (@Store.cell paper) :=
  {[ 0 := Store.CObject theme_dark ]}.

Definition store2 : gmap Store.loc (@Store.cell paper) :=
  {[ 3 := Store.CObject theme_dark;
     0 := Store.CUrl (mkURL "about:blank" [] "") ]}.

(** Two pages: one with two wallet channels, one with a wallet channel
    and a modal channel. *)
Definition two_wallet_channels : list (@Communicators.construction paper) :=
  [Communicators.NewEmbeddedWalletIframeCommunicator "client-a" None;
   Communicators.NewEmbeddedWalletIframeCommunicator "client-b" None].

Definition wallet_and_modal : list (@Communicators.construction paper) :=
  [Communicators.NewEmbeddedWalletIframeCommunicator "client-a" None;
   @Communicators.NewEmbeddedWalletUiIframeCommunicator paper
     "client-a" "/modal" ("div#root" : string) (Some theme_dark) None None].

(** The channel of an [EmbeddedWalletIframeCommunicator]: its initializer
    is the override of the class. *)
Definition stored (clientId : string) : Communicators.StoredValues :=
  {| Communicators.getAuthCookie := Some "cookie";
     Communicators.getDeviceShare := None;
     Communicators.getWalletUserId := Some "user-1" |}.

Definition wallet_channel : Channel.Config Communicators.InitVariables :=
  {| Channel.contextId := Communicators.EMBEDDED_WALLET_IFRAME_ID;
     Channel.targetAddress :=
       "https://withpaper.com/embedded-wallet?clientId=client-a";
     Channel.mountPoint := true;
     Channel.onReady := false;
     Channel.initializer :=
       fun _ => Communicators.onIframeLoadedInitVariables "client-a" stored |}.

(** A history with a call before the handshake, three readiness signals
    and a call that is still pending at the end. *)
Definition busy_history : list (Channel.Event unit string) :=
  [Channel.BeginLoading;
   Channel.Call "getUserStatus" tt;
   Channel.ReadinessSignal;
   Channel.ReadinessSignal;
   Channel.Response 0 (inl "Logged Out");
   Channel.ReadinessSignal;
   Channel.Call "createWallet" tt;
   Channel.Call "setUpNewDevice" tt;
   Channel.TimerFired 1].

(** A wallet built by the constructor in an empty world, and an embedded
    context that reports an initialized wallet. *)
Definition empty_world : Wallet.world string :=
  {| Wallet.objects := ∅; Wallet.effects := [] |}.

Definition wallet_world : Wallet.world string :=
  snd (Wallet.constructor "client-a" "Polygon" 9 empty_world).

Definition the_wallet : Wallet.EmbeddedWallet :=
  {| Wallet.clientId := "client-a"; Wallet.chain := "Polygon";
     Wallet.walletManagerQuerier := 9; Wallet.localStorage := 2;
     Wallet.gasless := 1 |}.

Definition initialized_user : Wallet.UserStatus string :=
  {| Wallet.status := Wallet.LOGGED_IN_WALLET_INITIALIZED;
     Wallet.user := Some [("authDetails", Wallet.FData "email");
                          ("walletAddress", Wallet.FData "0xabc")] |}.

Definition remote (sent : list (Wallet.Effect string))
  : Wallet.Outcome string (Wallet.UserStatus string) :=
  Wallet.Fulfilled initialized_user.

Definition incognito_set_up : Wallet.SetUpWalletRpcReturnType :=
  {| Wallet.deviceShareStored := "share-1";
     Wallet.walletAddress := "0xabc";
     Wallet.isIframeStorageEnabled := false |}.

End Example.

(** ** Signers and sessions of method calls on a wallet *)

Module Signer.
Import Wallet.

Section Signers.
(** [Networkish] is the network type of the provider library; the table
    [ChainToPublicRpc] of [constants/settings] is not among the sources and
    is a parameter ([None]: the chain has no entry). *)
Context {Data Networkish : Type}.
Variable ChainToPublicRpc : Chain -> option Networkish.

(** The provider library and [EthersSigner] are not among the sources: a
    provider and a signer are what they were built from. *)
Record Provider := { provider_network : option Networkish }.

Record EthersSigner := {
  signer_clientId : string;
  signer_provider : Provider;
  signer_querier : ref
}.

(** [getDefaultProvider(network)] *)
Definition getDefaultProvider (network : option Networkish) : Provider :=
  {| provider_network := network |}.

(** [x ?? d] *)
Definition nullish_coalescing {A} (x d : option A) : option A :=
  match x with
  | Some a => Some a
  | None => d
  end.

(** [getEthersJsSigner(network?)]; [rpcEndpoint] is [network?.rpcEndpoint],
    [None] when the argument is omitted. *)
Definition getEthersJsSigner (this : ref) (rpcEndpoint : option Networkish)
  : @M Data EthersSigner :=
  bind (self this) (fun wal =>
  let signer :=
    {| signer_clientId := clientId wal;
       signer_provider :=
         getDefaultProvider
           (nullish_coalescing rpcEndpoint (ChainToPublicRpc (chain wal)));
       signer_querier := walletManagerQuerier wal |} in
  ret signer).

(** [signer.getAddress()] of the absent class: whatever it does is a
    parameter. *)
Variable EthersSigner_getAddress : EthersSigner -> @M Data string.

(** [getAddress()] *)
Definition getAddress (this : ref) : @M Data string :=
  bind (getEthersJsSigner this None) EthersSigner_getAddress.

(** A call of one of the methods of a wallet, as data. *)
Inductive invocation :=
| PostWalletSetUp (arg : SetUpWalletRpcReturnType)
| GetUserWalletStatus
| SetChain (chain : Chain)
| GetEthersJsSigner (rpcEndpoint : option Networkish).

Variable remote : list (Effect Data) -> Outcome Data (UserStatus Data).

(** The world after one call; what the call returned is dropped. *)
Definition invoke (this : ref) (i : invocation) (w : world Data) : world Data :=
  match i with
  | PostWalletSetUp arg => snd (postWalletSetUp this arg w)
  | GetUserWalletStatus => snd (getUserWalletStatus remote this w)
  | SetChain chain => snd (setChain this chain w)
  | GetEthersJsSigner rpcEndpoint => snd (getEthersJsSigner this rpcEndpoint w)
  end.

(** The world after a session of calls on one wallet, oldest first. *)
Definition session (this : ref) (calls : list invocation) (w : world Data)
  : world Data :=
  fold_left (fun w i => invoke this i w) calls w.

(** The chain the last [setChain] of a session asked for. *)
Definition current_chain (calls : list invocation) (initial : Chain) : Chain :=
  fold_left (fun c i => match i with SetChain c' => c' | _ => c end)
            calls initial.

(** What a session on a wallet is expected to do to its collaborators. *)
Definition session_effects (wal : EmbeddedWallet) (calls : list invocation)
  : list (Effect Data) :=
  flat_map (fun i =>
      match i with
      | PostWalletSetUp arg =>
          if isIframeStorageEnabled arg then []
          else [SaveDeviceShare (clientId wal) (deviceShareStored arg)]
      | GetUserWalletStatus =>
          [RemoteCall (walletManagerQuerier wal) "getUserStatus" None]
      | SetChain _ | GetEthersJsSigner _ => []
      end) calls.

(** The [gasless] field refers to a maker bound to the wallet's own chain,
    client id and querier. *)
Definition gasless_in_sync (w : world Data) (wal : EmbeddedWallet) : Prop :=
  objects w !! gasless wal
  = Some (OGasless {| gasless_chain := chain wal;
                      gasless_clientId := clientId wal;
                      gasless_querier := walletManagerQuerier wal |}).

End Signers.

Arguments Provider : clear implicits.
Arguments EthersSigner : clear implicits.
Arguments invocation : clear implicits.

End Signer.

(** ** More values to evaluate the definitions on *)

Module Scenario.

(** A path that brings parameters of its own, as a parser would hand it on. *)
Definition parsed_with_query : URL :=
  mkURL "https://withpaper.com/embedded"
        [("ref", "mail"); ("clientId", "stale"); ("lang", "en")] "#top".

Definition browser_with_query : Platform :=
  {| number := nat;
     Number_toString := fun n => NilEmpty.string_of_uint (Nat.to_uint n);
     new_URL := fun input base =>
       if String.eqb input "/embedded?ref=mail&clientId=stale&lang=en#top"
       then Some parsed_with_query else Example.parse input base;
     URL_href := Example.href;
     PAPER_APP_URL := "https://withpaper.com";
     EMBEDDED_WALLET_PATH := "/embedded-wallet";
     HTMLElement := string;
     document_body := "body";
     StyleObject := list (string * string);
     getDefaultModalStyles_iframe := [] |}.

Definition mixed_mapping : @Js.object Example.paper :=
  [("theme", Js.VString "dark"); ("size", @Js.VNumber Example.paper 0);
   ("clientId", Js.VString "other"); ("locale", Js.VUndefined);
   ("title", Js.VString "")].

Definition mixed_mapping_q : @Js.object browser_with_query :=
  [("theme", Js.VString "dark"); ("lang", Js.VNull)].

(** The public RPC table of a wallet on two chains. *)
Definition public_rpc (chain : Wallet.Chain) : option string :=
  if String.eqb chain "Polygon" then Some "https://polygon-rpc.com"
  else if String.eqb chain "Mumbai" then Some "https://rpc-mumbai.maticvigil.com"
  else None.

Definition storage_enabled_set_up : Wallet.SetUpWalletRpcReturnType :=
  {| Wallet.deviceShareStored := "share-2";
     Wallet.walletAddress := "0xabc";
     Wallet.isIframeStorageEnabled := true |}.

Definition calls : list (Signer.invocation string) :=
  [Signer.GetUserWalletStatus;
   Signer.PostWalletSetUp Example.incognito_set_up;
   Signer.SetChain "Mumbai";
   Signer.GetEthersJsSigner None;
   Signer.PostWalletSetUp storage_enabled_set_up;
   Signer.SetChain "Goerli";
   Signer.GetUserWalletStatus].

(** A signer whose [getAddress] asks its querier. *)
Definition signer_getAddress (s : Signer.EthersSigner string)
  : @Wallet.M string string :=
  fun w => (Wallet.Fulfilled "0xabc",
            {| Wallet.objects := Wallet.objects w;
               Wallet.effects :=
                 (Wallet.effects w
                  ++ [Wallet.RemoteCall (Signer.signer_querier s)
                        "getAddress" None])%list |}).

End Scenario.

(** * Theorems *)

(** ** URLSearchParams *)

Section SearchParamsFacts.
Import UrlSearchParams.

Lemma has_name_true name p : has_name name p = true <-> fst p = name.
Proof. unfold has_name. apply String.eqb_eq. Qed.

Lemma has_name_false name p : has_name name p = false <-> fst p <> name.
Proof. unfold has_name. apply String.eqb_neq. Qed.

Lemma has_name_other name other p :
  other <> name -> has_name name p = true -> has_name other p = false.
Proof.
  intros Hne Hp. apply has_name_true in Hp. apply has_name_false. congruence.
Qed.

Lemma find_after_removal name other l :
  other <> name ->
  List.find (has_name other) (List.filter (fun q => negb (has_name name q)) l)
  = List.find (has_name other) l.
Proof.
  intros Hne. induction l as [|p l IH]; simpl; [reflexivity|].
  destruct (has_name name p) eqn:Hp; simpl.
  - rewrite (has_name_other _ _ _ Hne Hp). exact IH.
  - destruct (has_name other p); [reflexivity | exact IH].
Qed.

Lemma filter_after_removal name other l :
  other <> name ->
  List.filter (has_name other) (List.filter (fun q => negb (has_name name q)) l)
  = List.filter (has_name other) l.
Proof.
  intros Hne. induction l as [|p l IH]; simpl; [reflexivity|].
  destruct (has_name name p) eqn:Hp; simpl.
  - rewrite (has_name_other _ _ _ Hne Hp). exact IH.
  - destruct (has_name other p); simpl; [f_equal|]; exact IH.
Qed.

Lemma filter_removed name l :
  List.filter (has_name name) (List.filter (fun q => negb (has_name name q)) l) = [].
Proof.
  induction l as [|p l IH]; simpl; [reflexivity|].
  destruct (has_name name p) eqn:Hp; simpl; [exact IH|].
  rewrite Hp. exact IH.
Qed.

Lemma has_name_refl name value : has_name name (name, value) = true.
Proof. apply has_name_true. reflexivity. Qed.

Lemma get_set_same name value l : get name (set name value l) = Some value.
Proof.
  unfold get. induction l as [|p l IH]; simpl.
  - rewrite has_name_refl. reflexivity.
  - destruct (has_name name p) eqn:Hp; simpl.
    + rewrite has_name_refl. reflexivity.
    + rewrite Hp. exact IH.
Qed.

Lemma get_set_other name other value l :
  other <> name -> get other (set name value l) = get other l.
Proof.
  intros Hne. unfold get. induction l as [|p l IH]; simpl.
  - replace (has_name other (name, value)) with false; [reflexivity|].
    symmetry. apply has_name_false. simpl. congruence.
  - destruct (has_name name p) eqn:Hp; simpl.
    + rewrite (has_name_other _ _ _ Hne Hp).
      replace (has_name other (name, value)) with false.
      * now rewrite find_after_removal.
      * symmetry. apply has_name_false. simpl. congruence.
    + destruct (has_name other p); [reflexivity | exact IH].
Qed.

Lemma count_set_same name value l : count name (set name value l) = 1.
Proof.
  unfold count. induction l as [|p l IH]; simpl.
  - rewrite has_name_refl. reflexivity.
  - destruct (has_name name p) eqn:Hp; simpl.
    + rewrite has_name_refl, filter_removed. reflexivity.
    + rewrite Hp. exact IH.
Qed.

Lemma count_set_other name other value l :
  other <> name -> count other (set name value l) = count other l.
Proof.
  intros Hne. unfold count. induction l as [|p l IH]; simpl.
  - replace (has_name other (name, value)) with false; [reflexivity|].
    symmetry. apply has_name_false. simpl. congruence.
  - destruct (has_name name p) eqn:Hp; simpl.
    + rewrite (has_name_other _ _ _ Hne Hp).
      replace (has_name other (name, value)) with false.
      * now rewrite filter_after_removal.
      * symmetry. apply has_name_false. simpl. congruence.
    + destruct (has_name other p); simpl; [f_equal|]; exact IH.
Qed.

Lemma removal_idempotent name l :
  List.filter (fun q => negb (has_name name q))
              (List.filter (fun q => negb (has_name name q)) l)
  = List.filter (fun q => negb (has_name name q)) l.
Proof.
  induction l as [|p l IH]; simpl; [reflexivity|].
  destruct (has_name name p) eqn:Hp; simpl; [exact IH|].
  rewrite Hp. simpl. now rewrite IH.
Qed.

Lemma set_set name v1 v2 l : set name v2 (set name v1 l) = set name v2 l.
Proof.
  induction l as [|p l IH]; simpl.
  - rewrite has_name_refl. reflexivity.
  - destruct (has_name name p) eqn:Hp; simpl.
    + rewrite has_name_refl. now rewrite removal_idempotent.
    + rewrite Hp. now rewrite IH.
Qed.

Lemma get_Some_In name value l : get name l = Some value -> In (name, value) l.
Proof.
  unfold get. intros Hget.
  destruct (List.find (has_name name) l) as [[k v]|] eqn:Hfind; [|discriminate].
  apply find_some in Hfind as [Hin Hk]. apply has_name_true in Hk.
  simpl in *. injection Hget as ->. now subst k.
Qed.

End SearchParamsFacts.

(** ** The resolver *)

Section ResolverFacts.
Context `{Platform}.
Import Js Resolver UrlSearchParams.

Lemma or_else_empty (x : option string) :
  or_else x "" = match x with Some s => s | None => "" end.
Proof.
  destruct x as [s|]; simpl; [|reflexivity].
  unfold truthy. destruct (String.eqb_spec s ""); simpl; congruence.
Qed.

Lemma fold_keys_snoc (queryParams : object) keys k u :
  fold_left (set_query_key queryParams) (keys ++ [k]) u
  = set_query_key queryParams (fold_left (set_query_key queryParams) keys u) k.
Proof. now rewrite fold_left_app. Qed.

(** A key of the mapping ends up as exactly one parameter, holding the
    serialised value the mapping has for it. *)
Lemma fold_keys_set (queryParams : object) keys u k :
  In k keys ->
  get k (searchParams (fold_left (set_query_key queryParams) keys u))
  = Some (or_else (optional_toString (get_property queryParams k)) "")
  /\ count k (searchParams (fold_left (set_query_key queryParams) keys u)) = 1.
Proof.
  induction keys as [|k' keys IH] using rev_ind; intros Hin; [destruct Hin|].
  rewrite fold_keys_snoc. unfold set_query_key at 1 3. simpl.
  destruct (String.eqb_spec k k') as [->|Hne].
  - split; [apply get_set_same | apply count_set_same].
  - rewrite get_set_other, count_set_other by assumption.
    apply IH. apply in_app_or in Hin as [Hin|[Heq|[]]]; congruence.
Qed.

(** A name that is not a key of the mapping is left as it was. *)
Lemma fold_keys_frame (queryParams : object) keys u k :
  ~ In k keys ->
  get k (searchParams (fold_left (set_query_key queryParams) keys u))
  = get k (searchParams u)
  /\ count k (searchParams (fold_left (set_query_key queryParams) keys u))
     = count k (searchParams u).
Proof.
  induction keys as [|k' keys IH] using rev_ind; intros Hin; [now split|].
  rewrite fold_keys_snoc. unfold set_query_key at 1 3. simpl.
  rewrite in_app_iff in Hin. simpl in Hin.
  rewrite get_set_other, count_set_other by intuition congruence.
  apply IH. tauto.
Qed.

Lemma resolver_total clientId path queryParams :
  is_Some (new_URL path PAPER_APP_URL) ->
  is_Some (createEmbeddedWalletIframeLink clientId path queryParams).
Proof.
  intros [u Hu]. unfold createEmbeddedWalletIframeLink. rewrite Hu. eauto.
Qed.

(** The parameters of a produced address, key by key. *)
Lemma resolver_parameters clientId path queryParams url :
  createEmbeddedWalletIframeLink clientId path queryParams = Some url ->
  count "clientId" (searchParams url) = 1
  /\ (match queryParams with
      | Some q => ~ In "clientId" (Object_keys q)
      | None => True
      end -> get "clientId" (searchParams url) = Some clientId)
  /\ (forall q k, queryParams = Some q -> In k (Object_keys q) ->
        get k (searchParams url)
        = Some (or_else (optional_toString (get_property q k)) "")
        /\ count k (searchParams url) = 1).
Proof.
  unfold createEmbeddedWalletIframeLink.
  destruct (new_URL path PAPER_APP_URL) as [u0|]; [|discriminate].
  intros [= <-]. destruct queryParams as [q|].
  - split; [|split].
    + destruct (in_dec String.string_dec "clientId" (Object_keys q)) as [Hin|Hout].
      * now apply fold_keys_set.
      * destruct (fold_keys_frame q (Object_keys q)
                    (URL_searchParams_set "clientId" clientId u0) "clientId" Hout)
          as [_ ->].
        simpl. apply count_set_same.
    + intros Hout.
      destruct (fold_keys_frame q (Object_keys q)
                  (URL_searchParams_set "clientId" clientId u0) "clientId" Hout)
        as [-> _].
      simpl. apply get_set_same.
    + intros q' k [= <-] Hin. now apply fold_keys_set.
  - split; [|split].
    + simpl. apply count_set_same.
    + intros _. simpl. apply get_set_same.
    + intros q k [=].
Qed.

End ResolverFacts.

(** C3. For every identity token, path and customization mapping that the
    platform can resolve, a customization key whose value is [undefined] (or
    [null]) is set in the produced address as a query parameter whose value
    is the empty string: the key is present, exactly once, and not omitted. *)
Theorem undefined_value_is_set_to_empty_string `{Platform}
    (clientId path : string) (queryParams : Js.object) (queryKey : string) :
  is_Some (new_URL path PAPER_APP_URL) ->
  In queryKey (Js.Object_keys queryParams) ->
  Js.get_property queryParams queryKey = Js.VUndefined
  \/ Js.get_property queryParams queryKey = Js.VNull ->
  exists url,
    Resolver.createEmbeddedWalletIframeLink clientId path (Some queryParams)
    = Some url
    /\ UrlSearchParams.get queryKey (searchParams url) = Some ""
    /\ UrlSearchParams.count queryKey (searchParams url) = 1
    /\ In (queryKey, "") (searchParams url).
Proof.
  intros Hparse Hkey Hvalue.
  destruct (resolver_total clientId path (Some queryParams) Hparse) as [url Hurl].
  exists url. split; [exact Hurl|].
  destruct (resolver_parameters _ _ _ _ Hurl) as (_ & _ & Hkeys).
  destruct (Hkeys queryParams queryKey eq_refl Hkey) as [Hget Hcount].
  assert (Hempty : UrlSearchParams.get queryKey (searchParams url) = Some "").
  { rewrite Hget. destruct Hvalue as [-> | ->]; reflexivity. }
  split; [exact Hempty|]. split; [exact Hcount|].
  now apply get_Some_In.
Qed.

Lemma undefined_value_is_set_to_empty_string_witness :
  exists url,
    @Resolver.createEmbeddedWalletIframeLink
      (Example.browser "https://withpaper.com") "cid123" "/embedded"
      (Some [("theme", Js.VString "dark"); ("locale", Js.VUndefined)])
    = Some url
    /\ UrlSearchParams.get "locale" (searchParams url) = Some ""
    /\ UrlSearchParams.count "locale" (searchParams url) = 1
    /\ In ("locale", "") (searchParams url).
Proof.
  apply (@undefined_value_is_set_to_empty_string
           (Example.browser "https://withpaper.com") "cid123" "/embedded"
           [("theme", Js.VString "dark"); ("locale", Js.VUndefined)] "locale").
  - vm_compute. eauto.
  - simpl. auto.
  - left. reflexivity.
Defined.

(** The address is built by the assignments of [Resolver.assignments], made
    in order on what the parser produced. *)
Lemma resolver_makes_assignments `{Platform} clientId path queryParams url :
  Resolver.createEmbeddedWalletIframeLink clientId path queryParams = Some url ->
  exists parsed,
    new_URL path PAPER_APP_URL = Some parsed
    /\ searchParams url
       = fold_left (fun l a => UrlSearchParams.set (fst a) (snd a) l)
                   (Resolver.assignments clientId queryParams)
                   (searchParams parsed).
Proof.
  unfold Resolver.createEmbeddedWalletIframeLink, Resolver.assignments.
  destruct (new_URL path PAPER_APP_URL) as [u0|]; [|discriminate].
  intros [= <-]. exists u0. split; [reflexivity|].
  destruct queryParams as [q|]; [|reflexivity].
  simpl fold_left at 2.
  change (UrlSearchParams.set "clientId" clientId (searchParams u0))
    with (searchParams (URL_searchParams_set "clientId" clientId u0)).
  generalize (URL_searchParams_set "clientId" clientId u0).
  induction (Js.Object_keys q) as [|k keys IH]; intros u; [reflexivity|].
  simpl. rewrite IH. reflexivity.
Qed.

(** Of a series of assignments, the last one made to a name decides the
    value the name ends up with. *)
Lemma last_assignment_wins (sets : list (string * string)) l name value :
  Resolver.last_assigned name sets = Some value ->
  UrlSearchParams.get name
    (fold_left (fun l a => UrlSearchParams.set (fst a) (snd a) l) sets l)
  = Some value.
Proof.
  unfold Resolver.last_assigned.
  induction sets as [|[k v] sets IH] using rev_ind; [discriminate|].
  rewrite rev_app_distr, fold_left_app. simpl.
  unfold UrlSearchParams.get at 1. simpl.
  destruct (UrlSearchParams.has_name name (k, v)) eqn:Hk.
  - apply has_name_true in Hk. simpl in Hk. subst k. simpl.
    intros [= <-]. apply get_set_same.
  - apply has_name_false in Hk. simpl in Hk. intros Hlast.
    rewrite get_set_other by congruence. now apply IH.
Qed.

(** C4, as stated, fails: a customization mapping with a key [clientId]
    replaces the identity token, so the produced address does not carry
    the token. *)
Lemma identity_token_replaced_by_customization :
  exists url,
    @Resolver.createEmbeddedWalletIframeLink
      (Example.browser "https://withpaper.com") "cid123" "/embedded"
      (Some [("clientId", Js.VString "other")])
    = Some url
    /\ UrlSearchParams.get "clientId" (searchParams url) = Some "other"
    /\ UrlSearchParams.get "clientId" (searchParams url) <> Some "cid123".
Proof.
  eexists. split; [vm_compute; reflexivity|].
  split; [reflexivity | discriminate].
Qed.

(** C4 (amended). Whatever the fixed base location is, with or without a
    trailing slash, if the platform resolves ["/embedded"] against it then
    for identity ["cid123"] and customization [{theme: "dark"}] the produced
    address has the query parameters [clientId=cid123] and [theme=dark].
    In general the produced address has exactly one parameter per
    customization key, holding that key's serialised value, and exactly one
    [clientId] parameter, which holds the identity token unless the
    customization mapping has a key [clientId] of its own. *)
Theorem resolver_query_parameters `{Platform} :
  (is_Some (new_URL "/embedded" PAPER_APP_URL) ->
   exists url,
     Resolver.createEmbeddedWalletIframeLink
       "cid123" "/embedded" (Some [("theme", Js.VString "dark")]) = Some url
     /\ UrlSearchParams.get "clientId" (searchParams url) = Some "cid123"
     /\ UrlSearchParams.get "theme" (searchParams url) = Some "dark")
  /\ (forall clientId path queryParams,
        is_Some (new_URL path PAPER_APP_URL) ->
        exists url,
          Resolver.createEmbeddedWalletIframeLink clientId path queryParams
          = Some url
          /\ UrlSearchParams.count "clientId" (searchParams url) = 1
          /\ (match queryParams with
              | Some q => ~ In "clientId" (Js.Object_keys q)
              | None => True
              end ->
              UrlSearchParams.get "clientId" (searchParams url) = Some clientId)
          /\ (forall q k,
                queryParams = Some q -> In k (Js.Object_keys q) ->
                UrlSearchParams.get k (searchParams url)
                = Some (Js.or_else (Js.optional_toString (Js.get_property q k)) "")
                /\ UrlSearchParams.count k (searchParams url) = 1)).
Proof.
  assert (General : forall clientId path queryParams,
    is_Some (new_URL path PAPER_APP_URL) ->
    exists url,
      Resolver.createEmbeddedWalletIframeLink clientId path queryParams = Some url
      /\ UrlSearchParams.count "clientId" (searchParams url) = 1
      /\ (match queryParams with
          | Some q => ~ In "clientId" (Js.Object_keys q)
          | None => True
          end ->
          UrlSearchParams.get "clientId" (searchParams url) = Some clientId)
      /\ (forall q k,
            queryParams = Some q -> In k (Js.Object_keys q) ->
            UrlSearchParams.get k (searchParams url)
            = Some (Js.or_else (Js.optional_toString (Js.get_property q k)) "")
            /\ UrlSearchParams.count k (searchParams url) = 1)).
  { intros clientId path queryParams Hparse.
    destruct (resolver_total clientId path queryParams Hparse) as [url Hurl].
    exists url. split; [exact Hurl|]. now apply resolver_parameters with path. }
  split; [|exact General].
  intros Hparse.
  destruct (General "cid123" "/embedded" (Some [("theme", Js.VString "dark")]) Hparse)
    as (url & Hurl & _ & Hid & Hkeys).
  exists url. split; [exact Hurl|]. split.
  - apply Hid. simpl. intros [Heq|[]]. discriminate.
  - destruct (Hkeys _ "theme" eq_refl) as [-> _]; [simpl; auto | reflexivity].
Qed.

Lemma resolver_query_parameters_witness :
  (exists url,
     @Resolver.createEmbeddedWalletIframeLink
       (Example.browser "https://withpaper.com") "cid123" "/embedded"
       (Some [("theme", Js.VString "dark")]) = Some url
     /\ UrlSearchParams.get "clientId" (searchParams url) = Some "cid123"
     /\ UrlSearchParams.get "theme" (searchParams url) = Some "dark")
  /\ (exists url,
     @Resolver.createEmbeddedWalletIframeLink
       (Example.browser "https://withpaper.com/") "cid123" "/embedded"
       (Some [("theme", Js.VString "dark")]) = Some url
     /\ UrlSearchParams.get "clientId" (searchParams url) = Some "cid123"
     /\ UrlSearchParams.get "theme" (searchParams url) = Some "dark").
Proof.
  split.
  - apply (proj1 (@resolver_query_parameters (Example.browser "https://withpaper.com"))).
    vm_compute. eauto.
  - apply (proj1 (@resolver_query_parameters (Example.browser "https://withpaper.com/"))).
    vm_compute. eauto.
Defined.

(** The scenario evaluated on the stand-in browser: the address is the same
    for the base with and without a trailing slash. *)
Example scenario_href_without_trailing_slash :
  option_map (@URL_href Example.paper)
    (@Resolver.createEmbeddedWalletIframeLink
       (Example.browser "https://withpaper.com") "cid123" "/embedded"
       (Some Example.theme_dark))
  = Some "https://withpaper.com/embedded?clientId=cid123&theme=dark".
Proof. vm_compute. reflexivity. Qed.

Example scenario_href_with_trailing_slash :
  option_map (@URL_href Example.paper)
    (@Resolver.createEmbeddedWalletIframeLink
       (Example.browser "https://withpaper.com/") "cid123" "/embedded"
       (Some [("theme", Js.VString "dark")]))
  = Some "https://withpaper.com/embedded?clientId=cid123&theme=dark".
Proof. vm_compute. reflexivity. Qed.

(** Numbers are printed, [undefined] and [null] become empty values, and a
    parameter the path brought along more than once is set in place. *)
Example resolver_on_mixed_values :
  UrlSearchParams.set "n" "42"
    (UrlSearchParams.set "clientId" "cid123"
       [("clientId", "a"); ("x", "1"); ("clientId", "b")])
  = [("clientId", "cid123"); ("x", "1"); ("n", "42")]
  /\ option_map searchParams
       (@Resolver.createEmbeddedWalletIframeLink Example.paper "cid123" "/embedded"
          (Some [("n", @Js.VNumber Example.paper 42); ("u", Js.VUndefined);
                 ("z", Js.VNull); ("e", Js.VString "")]))
     = Some [("clientId", "cid123"); ("n", "42"); ("u", ""); ("z", ""); ("e", "")].
Proof. split; vm_compute; reflexivity. Qed.

(** C5. While the address is built, of the assignments made to one query
    parameter the last one wins; in particular a customization entry whose
    key is [clientId] gives the [clientId] parameter its value, in place of
    the identity token. *)
Theorem later_value_wins `{Platform}
    (clientId path : string) (queryParams : option Js.object) :
  is_Some (new_URL path PAPER_APP_URL) ->
  exists url,
    Resolver.createEmbeddedWalletIframeLink clientId path queryParams = Some url
    /\ (forall name value,
          Resolver.last_assigned name (Resolver.assignments clientId queryParams)
          = Some value ->
          UrlSearchParams.get name (searchParams url) = Some value)
    /\ (forall q,
          queryParams = Some q -> In "clientId" (Js.Object_keys q) ->
          UrlSearchParams.get "clientId" (searchParams url)
          = Some (Js.or_else
                    (Js.optional_toString (Js.get_property q "clientId")) "")).
Proof.
  intros Hparse.
  destruct (resolver_total clientId path queryParams Hparse) as [url Hurl].
  exists url. split; [exact Hurl|]. split.
  - intros name value Hlast.
    destruct (resolver_makes_assignments _ _ _ _ Hurl) as (parsed & _ & ->).
    now apply last_assignment_wins.
  - intros q -> Hin.
    destruct (resolver_parameters _ _ _ _ Hurl) as (_ & _ & Hkeys).
    now destruct (Hkeys q "clientId" eq_refl Hin).
Qed.

Lemma later_value_wins_witness :
  exists url,
    @Resolver.createEmbeddedWalletIframeLink
      (Example.browser "https://withpaper.com") "cid123" "/embedded"
      (Some [("theme", Js.VString "dark"); ("clientId", Js.VString "other")])
    = Some url
    /\ UrlSearchParams.get "clientId" (searchParams url) = Some "other".
Proof.
  destruct (@later_value_wins (Example.browser "https://withpaper.com")
              "cid123" "/embedded"
              (Some [("theme", Js.VString "dark"); ("clientId", Js.VString "other")]))
    as (url & Hurl & _ & Hid).
  - vm_compute. eauto.
  - exists url. split; [exact Hurl|].
    rewrite (Hid _ eq_refl); [reflexivity | simpl; auto].
Defined.

(** ** The resolver over the store *)

Section StoreFacts.
Context `{Platform}.
Import Js Store.

Lemma searchParams_set_fresh (h : heap) l u name value :
  searchParams_set l name value (<[l := CUrl u]> h)
  = Some (tt, <[l := CUrl (URL_searchParams_set name value u)]> h).
Proof.
  unfold searchParams_set. rewrite lookup_insert_eq.
  now rewrite insert_insert_eq.
Qed.

(** The loop reads the mapping at [q] and writes the object at [l] only. *)
Lemma loop_over_keys (h : heap) q obj l keys u :
  h !! q = Some (CObject obj) -> q <> l ->
  for_of keys (fun queryKey =>
      bind (get_property_at q queryKey) (fun v =>
      searchParams_set l queryKey (or_else (optional_toString v) "")))
    (<[l := CUrl u]> h)
  = Some (tt, <[l := CUrl (fold_left (Resolver.set_query_key obj) keys u)]> h).
Proof.
  intros Hq Hne. revert u.
  induction keys as [|k keys IH]; intros u; [reflexivity|].
  simpl. unfold bind at 1 2. unfold get_property_at at 1.
  rewrite lookup_insert_ne by congruence. rewrite Hq.
  rewrite searchParams_set_fresh. apply IH.
Qed.

(** An invocation allocates one object, holding what the function of the
    three inputs computes, and changes nothing else. *)
Lemma store_resolver_spec (h : heap) clientId path q m :
  mapping_of h q = Some m ->
  createEmbeddedWalletIframeLink clientId path q h
  = match Resolver.createEmbeddedWalletIframeLink clientId path m with
    | Some url => Some (fresh (dom h), <[fresh (dom h) := CUrl url]> h)
    | None => None
    end.
Proof.
  intros Hm.
  unfold createEmbeddedWalletIframeLink,
    Resolver.createEmbeddedWalletIframeLink.
  unfold bind at 1. unfold construct_URL.
  destruct (new_URL path PAPER_APP_URL) as [u0|]; [|reflexivity].
  cbv zeta. set (l := fresh (dom h)).
  unfold bind at 1. rewrite searchParams_set_fresh.
  destruct q as [q|]; simpl in Hm.
  - destruct (h !! q) as [[obj|]|] eqn:Hq; try discriminate.
    injection Hm as <-.
    assert (Hne : q <> l).
    { intros Heq. apply (is_fresh (dom h)). fold l. rewrite <- Heq.
      apply elem_of_dom. rewrite Hq. eauto. }
    unfold bind at 1. unfold bind at 1. unfold Object_keys_at.
    rewrite lookup_insert_ne by congruence. rewrite Hq.
    rewrite (loop_over_keys h q obj l) by assumption.
    reflexivity.
  - injection Hm as <-. reflexivity.
Qed.

End StoreFacts.

(** C7. The resolver is deterministic and has no shared state: two
    invocations with equal identity token, path and customization mapping, in
    whatever stores they run, return equal addresses (or both throw), the
    address being a function of those three inputs alone; and an invocation
    leaves every object that existed before it, its input mapping included,
    as it was: all it does to the store is to add the object it returns. *)
Theorem resolver_deterministic_without_shared_state `{Platform}
    (clientId path : string) (q1 q2 : option Store.loc)
    (h1 h2 : Store.heap) (mapping : option Js.object) :
  Store.mapping_of h1 q1 = Some mapping ->
  Store.mapping_of h2 q2 = Some mapping ->
  Store.returned_URL (Store.createEmbeddedWalletIframeLink clientId path q1 h1)
  = Store.returned_URL (Store.createEmbeddedWalletIframeLink clientId path q2 h2)
  /\ Store.returned_URL (Store.createEmbeddedWalletIframeLink clientId path q1 h1)
     = Resolver.createEmbeddedWalletIframeLink clientId path mapping
  /\ (forall l h1',
        Store.createEmbeddedWalletIframeLink clientId path q1 h1 = Some (l, h1') ->
        (l ∉ dom h1)
        /\ dom h1' = {[l]} ∪ dom h1
        /\ (forall l', l' ∈ dom h1 -> h1' !! l' = h1 !! l')
        /\ Store.mapping_of h1' q1 = Some mapping).
Proof.
  intros Hm1 Hm2.
  assert (Hret : forall q h, Store.mapping_of h q = Some mapping ->
            Store.returned_URL
              (Store.createEmbeddedWalletIframeLink clientId path q h)
            = Resolver.createEmbeddedWalletIframeLink clientId path mapping).
  { intros q h Hm. rewrite (store_resolver_spec h clientId path q mapping Hm).
    destruct (Resolver.createEmbeddedWalletIframeLink clientId path mapping);
      [|reflexivity].
    simpl. now rewrite lookup_insert_eq. }
  split; [now rewrite !Hret|]. split; [now apply Hret|].
  intros l h1'. rewrite (store_resolver_spec h1 clientId path q1 mapping Hm1).
  destruct (Resolver.createEmbeddedWalletIframeLink clientId path mapping)
    as [url|]; [|discriminate].
  intros [= <- <-].
  assert (Hfresh : fresh (dom h1) ∉ dom h1) by apply is_fresh.
  assert (Hframe : forall l', l' ∈ dom h1 ->
            <[fresh (dom h1) := Store.CUrl url]> h1 !! l' = h1 !! l').
  { intros l' Hl'. apply lookup_insert_ne. intros Heq. now rewrite Heq in Hfresh. }
  split; [exact Hfresh|]. split; [apply dom_insert_L|]. split; [exact Hframe|].
  destruct q1 as [q|]; [|exact Hm1].
  unfold Store.mapping_of in *. rewrite Hframe; [exact Hm1|].
  apply elem_of_dom. destruct (h1 !! q); [now eexists | discriminate].
Qed.

Lemma resolver_deterministic_without_shared_state_witness :
  Store.returned_URL
    (@Store.createEmbeddedWalletIframeLink Example.paper
       "cid123" "/embedded" (Some 0) Example.store1)
  = Store.returned_URL
      (@Store.createEmbeddedWalletIframeLink Example.paper
         "cid123" "/embedded" (Some 3) Example.store2)
  /\ Store.returned_URL
       (@Store.createEmbeddedWalletIframeLink Example.paper
          "cid123" "/embedded" (Some 0) Example.store1)
     = Some (mkURL "https://withpaper.com/embedded"
                   [("clientId", "cid123"); ("theme", "dark")] "").
Proof.
  destruct (@resolver_deterministic_without_shared_state Example.paper
              "cid123" "/embedded" (Some 0) (Some 3)
              Example.store1 Example.store2 (Some Example.theme_dark))
    as (Hsame & Hvalue & _).
  - vm_compute. reflexivity.
  - vm_compute. reflexivity.
  - split; [exact Hsame|]. rewrite Hvalue. vm_compute. reflexivity.
Defined.

(** ** The communicators *)

Section CommunicatorFacts.
Context `{Platform}.
Import Communicators.

(** What a constructor call yields: the identity is the constant of the
    class, whatever the arguments. *)
Lemma construct_context_id (c : construction) (ch : communicator) :
  construct c = Some ch ->
  match ch with
  | EmbeddedWalletIframeCommunicator _ _ =>
      context_id ch = EMBEDDED_WALLET_IFRAME_ID
  | EmbeddedWalletUiIframeCommunicator _ =>
      context_id ch = EMBEDDED_WALLET_MODAL_UI_IFRAME_ID
  end.
Proof.
  destruct c; simpl;
    unfold new_EmbeddedWalletIframeCommunicator,
      new_EmbeddedWalletUiIframeCommunicator;
    destruct (Resolver.createEmbeddedWalletIframeLink _ _ _);
    intros [= <-]; reflexivity.
Qed.

Lemma live_channels_constructed (cs : list construction) channels ch :
  live_channels cs = Some channels -> In ch channels ->
  exists c, In c cs /\ construct c = Some ch.
Proof.
  revert channels. induction cs as [|c cs IH]; intros channels; simpl.
  - intros [= <-] [].
  - destruct (construct c) as [ch0|] eqn:Hc; [|discriminate].
    destruct (live_channels cs) as [chs|]; [|discriminate].
    intros [= <-] [<-|Hin].
    + exists c. auto.
    + destruct (IH chs eq_refl Hin) as (c' & Hc' & Hch). exists c'. auto.
Qed.

End CommunicatorFacts.

(** C6, as stated, fails: two channels built by
    [EmbeddedWalletIframeCommunicator] for two clients live on one page with
    the same context identity. *)
Lemma two_wallet_channels_share_identity :
  exists c1 c2,
    Communicators.live_channels Example.two_wallet_channels = Some [c1; c2]
    /\ c1 <> c2
    /\ Communicators.context_id c1 = Communicators.context_id c2
    /\ ~ NoDup (map Communicators.context_id [c1; c2]).
Proof.
  eexists. eexists. split; [vm_compute; reflexivity|].
  split; [discriminate|]. split; [reflexivity|].
  intros Hnodup. inversion Hnodup as [|? ? Hnotin _]. apply Hnotin. now left.
Qed.

(** C6 (amended). Every channel built by [EmbeddedWalletIframeCommunicator]
    uses the fixed identity ["paper-embedded-wallet-iframe"] and every
    channel built by [EmbeddedWalletUiIframeCommunicator] uses the fixed
    identity ["paper-embedded-wallet-modal-iframe"]; so two live channels on
    one page have different context identities exactly when they were built
    by different classes. *)
Theorem context_identity_fixed_per_class `{Platform}
    (cs : list Communicators.construction)
    (channels : list Communicators.communicator) :
  Communicators.live_channels cs = Some channels ->
  (forall ch, In ch channels ->
     match ch with
     | Communicators.EmbeddedWalletIframeCommunicator _ _ =>
         Communicators.context_id ch = "paper-embedded-wallet-iframe"
     | Communicators.EmbeddedWalletUiIframeCommunicator _ =>
         Communicators.context_id ch = "paper-embedded-wallet-modal-iframe"
     end)
  /\ (forall c1 c2, In c1 channels -> In c2 channels ->
        (Communicators.context_id c1 <> Communicators.context_id c2
         <-> Communicators.same_class c1 c2 = false)).
Proof.
  intros Hlive.
  assert (Hid : forall ch, In ch channels ->
     match ch with
     | Communicators.EmbeddedWalletIframeCommunicator _ _ =>
         Communicators.context_id ch = "paper-embedded-wallet-iframe"
     | Communicators.EmbeddedWalletUiIframeCommunicator _ =>
         Communicators.context_id ch = "paper-embedded-wallet-modal-iframe"
     end).
  { intros ch Hin.
    destruct (live_channels_constructed cs channels ch Hlive Hin) as (c & _ & Hc).
    exact (construct_context_id c ch Hc). }
  split; [exact Hid|].
  intros c1 c2 H1 H2. pose proof (Hid c1 H1) as E1. pose proof (Hid c2 H2) as E2.
  destruct c1, c2; simpl Communicators.same_class; rewrite E1, E2;
    split; intros Hx; try discriminate; try reflexivity; congruence.
Qed.

Lemma context_identity_fixed_per_class_witness :
  exists c1 c2,
    Communicators.live_channels Example.wallet_and_modal = Some [c1; c2]
    /\ Communicators.context_id c1 = "paper-embedded-wallet-iframe"
    /\ Communicators.context_id c2 = "paper-embedded-wallet-modal-iframe"
    /\ Communicators.context_id c1 <> Communicators.context_id c2.
Proof.
  eexists. eexists. split; [vm_compute; reflexivity|].
  match goal with
  | |- Communicators.context_id ?a = _ /\ Communicators.context_id ?b = _ /\ _ =>
      destruct (@context_identity_fixed_per_class Example.paper
                  Example.wallet_and_modal [a; b]) as [Hid Hdiff]; [vm_compute; reflexivity|];
      split; [exact (Hid a (or_introl eq_refl))|];
      split; [exact (Hid b (or_intror (or_introl eq_refl)))|];
      apply (Hdiff a b); simpl; auto
  end.
Defined.

(** ** The channel *)

Section ChannelFacts.
Context {Payload Params Result : Type}.
Variable cfg : Channel.Config Payload.
Import Channel.

Abbreviation State := (Channel.State Payload Params Result).
Abbreviation Event := (Channel.Event Params Result).

Lemma filter_is_init_app (l1 l2 : list (Outbound Payload Params)) :
  length (List.filter is_init (l1 ++ l2))
  = length (List.filter is_init l1) + length (List.filter is_init l2).
Proof. now rewrite List.filter_app, length_app. Qed.

Lemma no_init_among_calls (l : list (Outbound Payload Params)) :
  Forall (fun m => is_init m = false) l -> List.filter is_init l = [].
Proof.
  induction 1 as [|m l Hm _ IH]; simpl; [reflexivity|]. now rewrite Hm.
Qed.

(** Once [READY] or [CLOSED], no event invokes the initializer or sends an
    init message, and the channel does not go back. *)
Lemma step_after_ready (c : State) (e : Event) :
  lifecycle c = READY \/ lifecycle c = CLOSED ->
  (lifecycle (step cfg c e) = READY \/ lifecycle (step cfg c e) = CLOSED)
  /\ initializerCalls (step cfg c e) = initializerCalls c
  /\ init_messages_sent (step cfg c e) = init_messages_sent c.
Proof.
  unfold init_messages_sent.
  intros [Hc|Hc]; destruct e; simpl;
    unfold on_begin_loading, on_readiness_signal, on_call, on_response,
      on_timer, close, settle;
    rewrite ?Hc;
    repeat match goal with |- context [if ?b then _ else _] => destruct b end;
    simpl; rewrite ?Hc, ?filter_is_init_app; simpl; auto with arith.
Qed.

Lemma run_after_ready (history : list Event) (c : State) :
  lifecycle c = READY \/ lifecycle c = CLOSED ->
  (lifecycle (fold_left (step cfg) history c) = READY
   \/ lifecycle (fold_left (step cfg) history c) = CLOSED)
  /\ initializerCalls (fold_left (step cfg) history c) = initializerCalls c
  /\ init_messages_sent (fold_left (step cfg) history c) = init_messages_sent c.
Proof.
  revert c. induction history as [|e history IH]; intros c Hc; simpl; [auto|].
  destruct (step_after_ready c e Hc) as (Hc' & Hcalls & Hsent).
  destruct (IH _ Hc') as (? & -> & ->). auto.
Qed.

(** Before the handshake, an event other than the readiness signal and
    [close()] leaves the channel waiting and sends no init message. *)
Lemma step_before_ready (c : State) (e : Event) :
  awaiting_readiness c ->
  e <> ReadinessSignal -> e <> Close ->
  awaiting_readiness (step cfg c e)
  /\ initializerCalls (step cfg c e) = initializerCalls c
  /\ init_messages_sent (step cfg c e) = init_messages_sent c.
Proof.
  unfold awaiting_readiness, queue_of_calls, init_messages_sent.
  intros (Hc & Hl & Hq) Hready Hclose.
  destruct e; try congruence; simpl;
    unfold on_begin_loading, on_call, on_response, on_timer, settle.
  - destruct Hc as [Hc|Hc]; rewrite Hc; simpl; auto 6.
  - destruct Hc as [Hc|Hc]; rewrite Hc; simpl;
      (split; [|auto]); (split; [auto|]); (split; [assumption|]);
      apply Forall_app; split; auto.
  - destruct (listening c && is_pending correlationId c); simpl; auto.
  - destruct (is_pending correlationId c); simpl; auto.
Qed.

Lemma run_before_ready (history : list Event) (c : State) :
  awaiting_readiness c ->
  initializerCalls (fold_left (step cfg) history c)
  = initializerCalls c + (if readiness_received history then 1 else 0)
  /\ init_messages_sent (fold_left (step cfg) history c)
     = init_messages_sent c + (if readiness_received history then 1 else 0)
  /\ (readiness_received history = true ->
      lifecycle (fold_left (step cfg) history c) = READY
      \/ lifecycle (fold_left (step cfg) history c) = CLOSED).
Proof.
  revert c. induction history as [|e history IH]; intros c Hwait.
  - simpl. split; [lia|]. split; [lia | discriminate].
  - assert (Hother : e <> ReadinessSignal -> e <> Close ->
              readiness_received (e :: history) = readiness_received history).
    { destruct e; simpl; congruence. }
    destruct Hwait as (Hc & Hl & Hq).
    destruct e;
      try (match goal with
           | |- context [fold_left _ (?e :: _) _] =>
               destruct (step_before_ready c e (conj Hc (conj Hl Hq)))
                 as (Hwait' & Hcalls & Hsent); [discriminate | discriminate |];
               rewrite Hother by discriminate;
               change (fold_left (step cfg) (e :: history) c)
                 with (fold_left (step cfg) history (step cfg c e));
               rewrite <- Hcalls, <- Hsent; now apply IH
           end).
    + (* ReadinessSignal *)
      assert (Hready : lifecycle (on_readiness_signal cfg c) = READY).
      { unfold on_readiness_signal.
        destruct Hc as [Hc|Hc]; rewrite Hc, Hl; reflexivity. }
      destruct (run_after_ready history (on_readiness_signal cfg c)
                  (or_introl Hready)) as (Hst & Hcalls & Hsent).
      change (fold_left (step cfg) (ReadinessSignal :: history) c)
        with (fold_left (step cfg) history (on_readiness_signal cfg c)).
      change (readiness_received (@ReadinessSignal Params Result :: history))
        with true.
      rewrite Hcalls, Hsent.
      split; [|split; [|intros _; exact Hst]].
      * unfold on_readiness_signal.
        destruct Hc as [Hc|Hc]; rewrite Hc, Hl; simpl; lia.
      * unfold init_messages_sent, on_readiness_signal.
        destruct Hc as [Hc|Hc]; rewrite Hc, Hl; simpl;
          rewrite filter_is_init_app; simpl;
          rewrite (no_init_among_calls _ Hq); simpl; lia.
    + (* Close *)
      assert (Hclosed : lifecycle (close c) = CLOSED).
      { unfold close. destruct Hc as [Hc|Hc]; rewrite Hc; reflexivity. }
      destruct (run_after_ready history (close c) (or_intror Hclosed))
        as (Hst & Hcalls & Hsent).
      change (fold_left (step cfg) (Close :: history) c)
        with (fold_left (step cfg) history (close c)).
      change (readiness_received (@Close Params Result :: history)) with false.
      rewrite Hcalls, Hsent.
      unfold init_messages_sent, close.
      destruct Hc as [Hc|Hc]; rewrite Hc; simpl;
        (split; [lia|]); (split; [lia | discriminate]).
Qed.

(** A closed channel has no pending call. *)
Lemma closed_has_no_pending (history : list Event) :
  lifecycle (run cfg history) = CLOSED -> pending (run cfg history) = [].
Proof.
  unfold run. induction history as [|e history IH] using rev_ind.
  - discriminate.
  - rewrite fold_left_app. simpl.
    set (c := fold_left (step cfg) history (create cfg)) in *.
    destruct e; simpl;
      unfold on_begin_loading, on_readiness_signal, on_call, on_response,
        on_timer, close, settle.
    + destruct (lifecycle c) eqn:Hc; simpl; rewrite ?Hc; auto; discriminate.
    + destruct (lifecycle c) eqn:Hc; simpl; rewrite ?Hc; auto;
        destruct (listening c); simpl; rewrite ?Hc; auto; discriminate.
    + destruct (lifecycle c) eqn:Hc; simpl; auto; discriminate.
    + destruct (listening c && is_pending correlationId c); simpl; auto.
      intros Hc. now rewrite (IH Hc).
    + destruct (is_pending correlationId c); simpl; auto.
      intros Hc. now rewrite (IH Hc).
    + destruct (lifecycle c) eqn:Hc; simpl; rewrite ?Hc; auto.
Qed.

End ChannelFacts.






(** ** The EmbeddedWallet class *)

Section WalletFacts.
Context {Data : Type}.
Import Wallet.

Lemma get_set_field_same k v (o : user_object Data) :
  get_field k (set_field k v o) = Some v.
Proof.
  induction o as [|[k' v'] o IH]; simpl.
  - now rewrite String.eqb_refl.
  - destruct (String.eqb k' k) eqn:Hk; simpl; rewrite Hk; auto.
Qed.

Lemma get_set_field_other k k' v (o : user_object Data) :
  k' <> k -> get_field k' (set_field k v o) = get_field k' o.
Proof.
  intros Hne. induction o as [|[k0 v0] o IH]; simpl.
  - destruct (String.eqb_spec k k'); congruence.
  - destruct (String.eqb_spec k0 k) as [->|Hk]; simpl.
    + destruct (String.eqb_spec k k'); congruence.
    + destruct (String.eqb k0 k'); auto.
Qed.

(** The constructor sets up the invariant [wallet_at], with a
    [GaslessTransactionMaker] bound to the chain, and performs no effect. *)
Lemma constructor_sets_up (clientId : string) (chain : Chain) (querier : ref)
    (w : world Data) :
  exists this g s w',
    constructor clientId chain querier w = (Fulfilled this, w')
    /\ wallet_at w' this
         {| Wallet.clientId := clientId; Wallet.chain := chain;
            walletManagerQuerier := querier; localStorage := s; gasless := g |}
    /\ objects w' !! g
       = Some (OGasless {| gasless_chain := chain; gasless_clientId := clientId;
                           gasless_querier := querier |})
    /\ effects w' = effects w.
Proof.
  unfold constructor, bind, new, assign, ret. simpl.
  set (o0 := objects w).
  set (this := fresh (dom o0)).
  set (wal0 := OWallet _).
  set (o1 := <[this := wal0]> o0).
  set (g := fresh (dom o1)).
  assert (Hg : g <> this).
  { intros Heq. apply (is_fresh (dom o1)). fold g. rewrite Heq.
    apply elem_of_dom. unfold o1. rewrite lookup_insert_eq. eauto. }
  rewrite (lookup_insert_ne _ g this) by exact Hg.
  unfold o1 at 1. rewrite lookup_insert_eq. unfold wal0. simpl.
  set (o3 := <[this := _]> (<[g := _]> o1)).
  set (s := fresh (dom o3)).
  assert (Hs : s <> this).
  { intros Heq. apply (is_fresh (dom o3)). fold s. rewrite Heq.
    apply elem_of_dom. unfold o3. rewrite lookup_insert_eq. eauto. }
  assert (Hsg : s <> g).
  { intros Heq. apply (is_fresh (dom o3)). fold s. rewrite Heq.
    apply elem_of_dom. unfold o3.
    rewrite lookup_insert_ne by congruence. rewrite lookup_insert_eq. eauto. }
  rewrite (lookup_insert_ne _ s this) by exact Hs.
  unfold o3 at 1. rewrite lookup_insert_eq. simpl.
  exists this, g, s. eexists. split; [reflexivity|].
  unfold wallet_at. simpl. rewrite lookup_insert_eq.
  rewrite (lookup_insert_ne _ this s) by congruence. rewrite lookup_insert_eq.
  repeat split.
  rewrite (lookup_insert_ne _ this g) by congruence.
  rewrite (lookup_insert_ne _ s g) by congruence.
  unfold o3. rewrite (lookup_insert_ne _ this g) by congruence.
  now rewrite lookup_insert_eq.
Qed.

End WalletFacts.

(** C8. [getUserWalletStatus] issues exactly one remote call, with procedure
    name ["getUserStatus"] and params [undefined], and changes no object.
    When the awaited response has status [LOGGED_IN_WALLET_INITIALIZED] it
    returns that status with a user object that has the fields of the
    response's user and a [wallet] field that is the instance itself; for
    every other status it returns the response as it is (and it rejects when
    the call rejects). *)
Theorem getUserWalletStatus_one_call {Data : Type}
    (remote : list (Wallet.Effect Data)
              -> Wallet.Outcome Data (Wallet.UserStatus Data))
    (this : Wallet.ref) (w : Wallet.world Data) (wal : Wallet.EmbeddedWallet) :
  Wallet.objects w !! this = Some (Wallet.OWallet wal) ->
  Wallet.objects (snd (Wallet.getUserWalletStatus remote this w))
  = Wallet.objects w
  /\ Wallet.effects (snd (Wallet.getUserWalletStatus remote this w))
     = (Wallet.effects w
        ++ [Wallet.RemoteCall (Wallet.walletManagerQuerier wal) "getUserStatus" None])%list
  /\ match remote (Wallet.effects w
                   ++ [Wallet.RemoteCall (Wallet.walletManagerQuerier wal)
                         "getUserStatus" None])%list with
     | Wallet.Fulfilled userStatus =>
         match Wallet.status userStatus with
         | Wallet.LOGGED_IN_WALLET_INITIALIZED =>
             exists u,
               fst (Wallet.getUserWalletStatus remote this w)
               = Wallet.Fulfilled
                   {| Wallet.status := Wallet.LOGGED_IN_WALLET_INITIALIZED;
                      Wallet.user := Some u |}
               /\ Wallet.get_field "wallet" u = Some (Wallet.FWallet this)
               /\ (forall k, k <> "wallet" ->
                     Wallet.get_field k u
                     = Wallet.get_field k (Wallet.spread (Wallet.user userStatus)))
         | _ =>
             fst (Wallet.getUserWalletStatus remote this w)
             = Wallet.Fulfilled userStatus
         end
     | Wallet.Threw e =>
         fst (Wallet.getUserWalletStatus remote this w) = Wallet.Threw e
     end.
Proof.
  intros Hthis.
  unfold Wallet.getUserWalletStatus, Wallet.bind, Wallet.self, Wallet.call.
  rewrite Hthis. cbv zeta.
  destruct (remote _) as [userStatus|e]; simpl; [|auto].
  destruct (Wallet.status userStatus); simpl; repeat split.
  eexists. split; [reflexivity|]. split.
  - apply get_set_field_same.
  - intros k Hk. now apply get_set_field_other.
Qed.

Lemma getUserWalletStatus_one_call_witness :
  Wallet.effects (snd (Wallet.getUserWalletStatus Example.remote 0 Example.wallet_world))
  = [Wallet.RemoteCall 9 "getUserStatus" None]
  /\ fst (Wallet.getUserWalletStatus Example.remote 0 Example.wallet_world)
     = Wallet.Fulfilled
         {| Wallet.status := Wallet.LOGGED_IN_WALLET_INITIALIZED;
            Wallet.user := Some [("authDetails", Wallet.FData "email");
                                 ("walletAddress", Wallet.FData "0xabc");
                                 ("wallet", Wallet.FWallet 0)] |}.
Proof.
  destruct (getUserWalletStatus_one_call Example.remote 0 Example.wallet_world
              Example.the_wallet) as (_ & Heffects & _).
  - vm_compute. reflexivity.
  - split; [exact Heffects | vm_compute; reflexivity].
Defined.

(** C9. On a wallet, [postWalletSetUp] saves [deviceShareStored] into the
    local storage scoped to the wallet's client id if and only if
    [isIframeStorageEnabled] is false, does nothing else, and in every case
    returns an object whose [walletAddress] is the one it was given. *)
Theorem postWalletSetUp_saves_iff_storage_disabled {Data : Type}
    (this : Wallet.ref) (w : Wallet.world Data) (wal : Wallet.EmbeddedWallet)
    (arg : Wallet.SetUpWalletRpcReturnType) :
  Wallet.wallet_at w this wal ->
  fst (Wallet.postWalletSetUp this arg w)
  = Wallet.Fulfilled
      {| Wallet.address_walletAddress := Wallet.walletAddress arg |}
  /\ Wallet.objects (snd (Wallet.postWalletSetUp this arg w)) = Wallet.objects w
  /\ Wallet.effects (snd (Wallet.postWalletSetUp this arg w))
     = (Wallet.effects w
        ++ (if Wallet.isIframeStorageEnabled arg then []
            else [Wallet.SaveDeviceShare (Wallet.clientId wal)
                    (Wallet.deviceShareStored arg)]))%list
  /\ (Wallet.effects (snd (Wallet.postWalletSetUp this arg w)) <> Wallet.effects w
      <-> Wallet.isIframeStorageEnabled arg = false).
Proof.
  intros [Hthis Hstore].
  unfold Wallet.postWalletSetUp, Wallet.bind, Wallet.self, Wallet.saveDeviceShare,
    Wallet.perform, Wallet.ret.
  destruct (Wallet.isIframeStorageEnabled arg); simpl.
  - rewrite app_nil_r. repeat split; try tauto; discriminate.
  - rewrite Hthis, Hstore. simpl. repeat split; auto.
    intros _ Heq. apply (f_equal (@length _)) in Heq.
    rewrite length_app in Heq. simpl in Heq. lia.
Qed.

Lemma postWalletSetUp_saves_iff_storage_disabled_witness :
  fst (Wallet.postWalletSetUp 0 Example.incognito_set_up Example.wallet_world)
  = Wallet.Fulfilled {| Wallet.address_walletAddress := "0xabc" |}
  /\ Wallet.effects
       (snd (Wallet.postWalletSetUp 0 Example.incognito_set_up Example.wallet_world))
     = [Wallet.SaveDeviceShare "client-a" "share-1"].
Proof.
  destruct (postWalletSetUp_saves_iff_storage_disabled 0 Example.wallet_world
              Example.the_wallet Example.incognito_set_up)
    as (Hresult & _ & Heffects & _).
  - split; vm_compute; reflexivity.
  - split; [exact Hresult | exact Heffects].
Defined.

(** C10. On a wallet, [setChain({chain})] always resolves; afterwards the
    wallet's [chain] is the given chain and its [gasless] field is an object
    that did not exist before, a [GaslessTransactionMaker] built from that
    chain and the wallet's client id and querier, while the wallet's
    [clientId], querier and local storage are as before; no effect is
    performed, so no remote call is issued, and no other object that existed
    changes. *)
Theorem setChain_frame {Data : Type}
    (this : Wallet.ref) (chain : Wallet.Chain)
    (w : Wallet.world Data) (wal : Wallet.EmbeddedWallet) :
  Wallet.wallet_at w this wal ->
  exists g w',
    Wallet.setChain this chain w = (Wallet.Fulfilled tt, w')
    /\ (g ∉ dom (Wallet.objects w))
    /\ Wallet.objects w' !! g
       = Some (Wallet.OGasless
                 {| Wallet.gasless_chain := chain;
                    Wallet.gasless_clientId := Wallet.clientId wal;
                    Wallet.gasless_querier := Wallet.walletManagerQuerier wal |})
    /\ Wallet.wallet_at w' this
         {| Wallet.clientId := Wallet.clientId wal;
            Wallet.chain := chain;
            Wallet.walletManagerQuerier := Wallet.walletManagerQuerier wal;
            Wallet.localStorage := Wallet.localStorage wal;
            Wallet.gasless := g |}
    /\ Wallet.effects w' = Wallet.effects w
    /\ (forall r, r <> this -> r ∈ dom (Wallet.objects w) ->
          Wallet.objects w' !! r = Wallet.objects w !! r).
Proof.
  intros [Hthis Hstore].
  unfold Wallet.setChain, Wallet.bind, Wallet.assign, Wallet.self, Wallet.new.
  rewrite Hthis. simpl. rewrite lookup_insert_eq. simpl.
  set (o1 := <[this := _]> (Wallet.objects w)).
  set (g := fresh (dom o1)).
  assert (Hdom : forall r, r ∈ dom (Wallet.objects w) -> r ∈ dom o1).
  { intros r Hr. unfold o1. rewrite dom_insert_L. set_solver. }
  assert (Hfresh : forall r, r ∈ dom (Wallet.objects w) -> r <> g).
  { intros r Hr Heq. apply (is_fresh (dom o1)). fold g. rewrite <- Heq. auto. }
  assert (Hg : this <> g).
  { apply Hfresh. apply elem_of_dom. rewrite Hthis. eauto. }
  assert (Hsg : Wallet.localStorage wal <> g).
  { apply Hfresh. apply elem_of_dom. rewrite Hstore. eauto. }
  rewrite (lookup_insert_ne _ g this) by congruence.
  unfold o1 at 1. rewrite lookup_insert_eq.
  exists g. eexists. split; [reflexivity|]. simpl.
  split. { intros Hin. now apply (Hfresh g Hin). }
  split.
  { rewrite (lookup_insert_ne _ this g) by exact Hg. now rewrite lookup_insert_eq. }
  split.
  { unfold Wallet.wallet_at. simpl. rewrite lookup_insert_eq.
    split; [reflexivity|].
    destruct (decide (Wallet.localStorage wal = this)) as [Heq|Hne].
    - rewrite Heq in Hstore. congruence.
    - rewrite (lookup_insert_ne _ this) by congruence.
      rewrite (lookup_insert_ne _ g) by congruence.
      unfold o1. rewrite (lookup_insert_ne _ this) by congruence. exact Hstore. }
  split; [reflexivity|].
  intros r Hr Hin.
  rewrite (lookup_insert_ne _ this r) by congruence.
  rewrite (lookup_insert_ne _ g r) by (pose proof (Hfresh r Hin); congruence).
  unfold o1. now rewrite (lookup_insert_ne _ this r) by congruence.
Qed.

Lemma setChain_frame_witness :
  exists g w',
    Wallet.setChain 0 "Mumbai" Example.wallet_world = (Wallet.Fulfilled tt, w')
    /\ (g ∉ dom (Wallet.objects Example.wallet_world))
    /\ Wallet.objects w' !! g
       = Some (Wallet.OGasless
                 {| Wallet.gasless_chain := "Mumbai";
                    Wallet.gasless_clientId := "client-a";
                    Wallet.gasless_querier := 9 |})
    /\ Wallet.wallet_at w' 0
         {| Wallet.clientId := "client-a"; Wallet.chain := "Mumbai";
            Wallet.walletManagerQuerier := 9; Wallet.localStorage := 2;
            Wallet.gasless := g |}
    /\ Wallet.effects w' = Wallet.effects Example.wallet_world
    /\ (forall r, r <> 0 -> r ∈ dom (Wallet.objects Example.wallet_world) ->
          Wallet.objects w' !! r = Wallet.objects Example.wallet_world !! r).
Proof.
  apply (setChain_frame 0 "Mumbai" Example.wallet_world Example.the_wallet).
  split; vm_compute; reflexivity.
Defined.

(** The same call, evaluated: the new [GaslessTransactionMaker] is object 3. *)
Example setChain_on_the_example_wallet :
  Wallet.setChain 0 "Mumbai" Example.wallet_world
  = (Wallet.Fulfilled tt,
     {| Wallet.objects :=
          <[0 := Wallet.OWallet
                   {| Wallet.clientId := "client-a"; Wallet.chain := "Mumbai";
                      Wallet.walletManagerQuerier := 9; Wallet.localStorage := 2;
                      Wallet.gasless := 3 |}]>
            (<[3 := Wallet.OGasless
                      {| Wallet.gasless_chain := "Mumbai";
                         Wallet.gasless_clientId := "client-a";
                         Wallet.gasless_querier := 9 |}]>
               (Wallet.objects Example.wallet_world));
        Wallet.effects := [] |}).
Proof. vm_compute. reflexivity. Qed.

(** * Further properties of the code *)

(** ** The resolver: what it leaves alone, and the order of its parameters *)

Section ResolverShape.
Context `{Platform}.
Import Js Resolver UrlSearchParams.

Lemma fold_keys_location (queryParams : object) keys u :
  url_location (fold_left (set_query_key queryParams) keys u) = url_location u
  /\ url_hash (fold_left (set_query_key queryParams) keys u) = url_hash u.
Proof.
  revert u. induction keys as [|k keys IH]; intros u; simpl; [auto|].
  destruct (IH (set_query_key queryParams u k)) as [-> ->]. auto.
Qed.

(** [set] does not disturb the pairs of other names, nor their order. *)
Lemma filter_set_other (P : string * string -> bool) name value l :
  (forall p, has_name name p = true -> P p = false) ->
  List.filter P (set name value l) = List.filter P l.
Proof.
  intros HP. induction l as [|p l IH]; simpl.
  - now rewrite (HP (name, value) (has_name_refl name value)).
  - destruct (has_name name p) eqn:Hp; simpl.
    + rewrite (HP (name, value) (has_name_refl name value)), (HP p Hp).
      clear IH. induction l as [|p' l IH]; simpl; [reflexivity|].
      destruct (has_name name p') eqn:Hp'; simpl.
      * now rewrite (HP p' Hp').
      * now rewrite IH.
    + now rewrite IH.
Qed.

Lemma filter_fold_sets_other (P : string * string -> bool)
    (sets : list (string * string)) l :
  (forall a p, In a sets -> has_name (fst a) p = true -> P p = false) ->
  List.filter P (fold_left (fun l a => set (fst a) (snd a) l) sets l)
  = List.filter P l.
Proof.
  revert l. induction sets as [|a sets IH]; intros l HP; simpl; [reflexivity|].
  rewrite IH by (intros a' p Ha'; apply HP; now right).
  apply filter_set_other. intros p. apply HP. now left.
Qed.

Lemma set_new_name name value l :
  ~ In name (map fst l) -> set name value l = (l ++ [(name, value)])%list.
Proof.
  induction l as [|p l IH]; simpl; intros Hout; [reflexivity|].
  destruct (has_name name p) eqn:Hp.
  - apply has_name_true in Hp. tauto.
  - now rewrite IH by tauto.
Qed.

Lemma removal_of_absent name l :
  ~ In name (map fst l) ->
  List.filter (fun q => negb (has_name name q)) l = l.
Proof.
  induction l as [|p l IH]; simpl; intros Hout; [reflexivity|].
  destruct (has_name name p) eqn:Hp; simpl.
  - apply has_name_true in Hp. tauto.
  - now rewrite IH by tauto.
Qed.

(** Distinct keys assigned after a first pair: the first pair keeps its
    place, the new names follow in the order of the keys. *)
Lemma fold_sets_in_order (f : string -> string) c keys v0 r :
  NoDup keys ->
  ~ In c (map fst r) ->
  (forall k, In k keys -> k <> c -> ~ In k (map fst r)) ->
  fold_left (fun l a => set (fst a) (snd a) l)
            (map (fun k => (k, f k)) keys) ((c, v0) :: r)
  = ((c, if existsb (String.eqb c) keys then f c else v0)
     :: r ++ map (fun k => (k, f k))
                 (List.filter (fun k => negb (String.eqb k c)) keys))%list.
Proof.
  intros Hnodup. revert v0 r.
  induction Hnodup as [|k ks Hk Hks IH]; intros v0 r Hc Hr.
  - simpl. now rewrite app_nil_r.
  - cbn [map fold_left fst snd set]. unfold has_name at 1. cbn [fst].
    rewrite list_elem_of_In in Hk.
    destruct (String.eqb_spec c k) as [<-|Hne].
    + rewrite (removal_of_absent c r Hc).
      rewrite IH; [|assumption|intros k' Hk'; apply Hr; now right].
      cbn [existsb List.filter]. rewrite String.eqb_refl. simpl.
      now destruct (existsb (String.eqb c) ks).
    + rewrite (set_new_name k (f k) r) by (apply Hr; [now left | congruence]).
      rewrite IH.
      * cbn [existsb List.filter].
        destruct (String.eqb_spec c k) as [|_]; [congruence|].
        destruct (String.eqb_spec k c) as [|_]; [congruence|].
        simpl. now rewrite <- app_assoc.
      * rewrite map_app, in_app_iff. simpl. intuition congruence.
      * intros k' Hk' Hk'c. rewrite map_app, in_app_iff. simpl.
        intros [Hin|[Heq|[]]].
        -- apply (Hr k'); [now right | assumption | assumption].
        -- congruence.
Qed.

End ResolverShape.

(** X1. The resolver throws exactly when the URL constructor does, whatever
    the identity token and the mapping are; otherwise it keeps the location
    and the fragment the parser produced, and the parameters the path brought
    under names it does not assign keep their values and their order. *)
Theorem resolver_only_touches_its_parameters `{Platform}
    (clientId path : string) (queryParams : option Js.object) :
  match new_URL path PAPER_APP_URL with
  | None =>
      Resolver.createEmbeddedWalletIframeLink clientId path queryParams = None
  | Some parsed =>
      exists url,
        Resolver.createEmbeddedWalletIframeLink clientId path queryParams
        = Some url
        /\ url_location url = url_location parsed
        /\ url_hash url = url_hash parsed
        /\ forall names,
             (forall a, In a (Resolver.assignments clientId queryParams) ->
                        ~ In (fst a) names) ->
             List.filter (fun p => existsb (String.eqb (fst p)) names)
                         (searchParams url)
             = List.filter (fun p => existsb (String.eqb (fst p)) names)
                           (searchParams parsed)
  end.
Proof.
  destruct (new_URL path PAPER_APP_URL) as [parsed|] eqn:Hparse.
  - destruct (resolver_total clientId path queryParams) as [url Hurl];
      [rewrite Hparse; eauto|].
    exists url. split; [exact Hurl|].
    destruct (resolver_makes_assignments _ _ _ _ Hurl) as (parsed' & Hp' & Hsets).
    assert (parsed' = parsed) as -> by congruence.
    split; [|split].
    + unfold Resolver.createEmbeddedWalletIframeLink in Hurl. rewrite Hparse in Hurl.
      injection Hurl as <-. destruct queryParams as [q|]; [|reflexivity].
      now destruct (fold_keys_location q (Js.Object_keys q)
                      (URL_searchParams_set "clientId" clientId parsed)) as [-> _].
    + unfold Resolver.createEmbeddedWalletIframeLink in Hurl. rewrite Hparse in Hurl.
      injection Hurl as <-. destruct queryParams as [q|]; [|reflexivity].
      now destruct (fold_keys_location q (Js.Object_keys q)
                      (URL_searchParams_set "clientId" clientId parsed)) as [_ ->].
    + intros names Hnames. rewrite Hsets. apply filter_fold_sets_other.
      intros a p Ha Hp. apply has_name_true in Hp.
      apply not_true_is_false. intros Hex. apply existsb_exists in Hex.
      destruct Hex as (n & Hn & Heq). apply String.eqb_eq in Heq.
      apply (Hnames a Ha). congruence.
  - unfold Resolver.createEmbeddedWalletIframeLink. now rewrite Hparse.
Qed.

(** X2. When the path brings no parameters of its own and the keys of the
    mapping are distinct, the parameters of the produced address are
    [clientId] first, holding the mapping's own [clientId] value if it has
    one and the identity token otherwise, followed by one parameter per other
    key in the order of [Object.keys]. *)
Theorem resolver_parameter_order `{Platform}
    (clientId path : string) (queryParams : Js.object) (parsed : URL) :
  new_URL path PAPER_APP_URL = Some parsed ->
  searchParams parsed = [] ->
  NoDup (Js.Object_keys queryParams) ->
  Resolver.createEmbeddedWalletIframeLink clientId path (Some queryParams)
  = Some {| url_location := url_location parsed;
            searchParams :=
              ("clientId",
               if existsb (String.eqb "clientId") (Js.Object_keys queryParams)
               then Js.or_else (Js.optional_toString
                                  (Js.get_property queryParams "clientId")) ""
               else clientId)
              :: map (fun k =>
                        (k, Js.or_else (Js.optional_toString
                                          (Js.get_property queryParams k)) ""))
                     (List.filter (fun k => negb (String.eqb k "clientId"))
                                  (Js.Object_keys queryParams));
            url_hash := url_hash parsed |}.
Proof.
  intros Hparse Hempty Hnodup.
  destruct (resolver_total clientId path (Some queryParams)) as [url Hurl];
    [rewrite Hparse; eauto|].
  rewrite Hurl. f_equal.
  destruct (resolver_makes_assignments _ _ _ _ Hurl) as (parsed' & Hp' & Hsets).
  assert (parsed' = parsed) as -> by congruence.
  assert (Hloc : url_location url = url_location parsed
                 /\ url_hash url = url_hash parsed).
  { unfold Resolver.createEmbeddedWalletIframeLink in Hurl. rewrite Hparse in Hurl.
    injection Hurl as <-.
    now destruct (fold_keys_location queryParams (Js.Object_keys queryParams)
                    (URL_searchParams_set "clientId" clientId parsed)) as [-> ->]. }
  destruct url as [loc params hash]. simpl in *. destruct Hloc as [-> ->].
  f_equal. rewrite Hsets, Hempty. unfold Resolver.assignments.
  cbn [fold_left fst snd UrlSearchParams.set].
  rewrite (fold_sets_in_order
             (fun k => Js.or_else (Js.optional_toString
                                     (Js.get_property queryParams k)) "")
             "clientId" (Js.Object_keys queryParams) clientId []);
    [reflexivity | assumption | simpl; tauto | simpl; tauto].
Qed.

Lemma resolver_parameter_order_witness :
  @Resolver.createEmbeddedWalletIframeLink Example.paper
    "cid123" "/embedded" (Some Scenario.mixed_mapping)
  = Some (mkURL "https://withpaper.com/embedded"
                [("clientId", "other"); ("theme", "dark"); ("size", "0");
                 ("locale", ""); ("title", "")] "").
Proof.
  rewrite (@resolver_parameter_order Example.paper "cid123" "/embedded"
             Scenario.mixed_mapping
             (mkURL "https://withpaper.com/embedded" [] "")).
  - vm_compute. reflexivity.
  - vm_compute. reflexivity.
  - reflexivity.
  - apply (bool_decide_unpack _). vm_compute. exact I.
Defined.

(** X3. The value of the parameter of a customization key is the string
    itself for a string (the empty string included), the number's
    [toString] for a number, and the empty string for [undefined] and
    [null]: the fallback [|| ""] never replaces a value that is there. *)
Theorem resolver_value_serialisation `{Platform}
    (clientId path : string) (queryParams : Js.object) (queryKey : string)
    (url : URL) :
  Resolver.createEmbeddedWalletIframeLink clientId path (Some queryParams)
  = Some url ->
  In queryKey (Js.Object_keys queryParams) ->
  UrlSearchParams.get queryKey (searchParams url)
  = Some (match Js.get_property queryParams queryKey with
          | Js.VString s => s
          | Js.VNumber n => Number_toString n
          | Js.VUndefined | Js.VNull => ""
          end).
Proof.
  intros Hurl Hkey.
  destruct (resolver_parameters _ _ _ _ Hurl) as (_ & _ & Hkeys).
  destruct (Hkeys queryParams queryKey eq_refl Hkey) as [-> _].
  rewrite or_else_empty. now destruct (Js.get_property queryParams queryKey).
Qed.

Lemma resolver_value_serialisation_witness :
  UrlSearchParams.get "size"
    (searchParams
       (mkURL "https://withpaper.com/embedded"
              [("clientId", "other"); ("theme", "dark"); ("size", "0");
               ("locale", ""); ("title", "")] ""))
  = Some "0".
Proof.
  rewrite (@resolver_value_serialisation Example.paper "cid123" "/embedded"
             Scenario.mixed_mapping "size").
  - reflexivity.
  - vm_compute. reflexivity.
  - simpl. auto.
Defined.

Lemma resolver_only_touches_its_parameters_witness :
  exists url,
    @Resolver.createEmbeddedWalletIframeLink Scenario.browser_with_query
      "cid123" "/embedded?ref=mail&clientId=stale&lang=en#top"
      (Some Scenario.mixed_mapping_q)
    = Some url
    /\ url_hash url = "#top"
    /\ List.filter (fun p => existsb (String.eqb (fst p)) ["ref"])
                   (searchParams url)
       = [("ref", "mail")].
Proof.
  pose proof (@resolver_only_touches_its_parameters Scenario.browser_with_query
                "cid123" "/embedded?ref=mail&clientId=stale&lang=en#top"
                (Some Scenario.mixed_mapping_q)) as Hx.
  change (@new_URL Scenario.browser_with_query
            "/embedded?ref=mail&clientId=stale&lang=en#top"
            (@PAPER_APP_URL Scenario.browser_with_query))
    with (Some Scenario.parsed_with_query) in Hx.
  destruct Hx as (url & Hurl & _ & Hhash & Hkeep).
  exists url. split; [exact Hurl|]. split; [exact Hhash|].
  rewrite (Hkeep ["ref"]); [reflexivity|].
  intros a Ha [Heq|[]]. vm_compute in Ha.
  destruct Ha as [<-|[<-|[<-|[]]]]; discriminate.
Defined.

(** The address of that call: the stale [clientId] is replaced in place, the
    second [lang] value wins, [theme] is appended. *)
Example resolver_on_a_path_with_query :
  @Resolver.createEmbeddedWalletIframeLink Scenario.browser_with_query
    "cid123" "/embedded?ref=mail&clientId=stale&lang=en#top"
    (Some Scenario.mixed_mapping_q)
  = Some (mkURL "https://withpaper.com/embedded"
                [("ref", "mail"); ("clientId", "cid123"); ("lang", "");
                 ("theme", "dark")] "#top").
Proof. vm_compute. reflexivity. Qed.

(** ** The resolver over the store: calls in sequence *)

Lemma mapping_after_allocation `{Platform} (h : gmap Store.loc Store.cell)
    (q : option Store.loc) (mapping : option Js.object) l c :
  Store.mapping_of h q = Some mapping ->
  l ∉ dom h ->
  Store.mapping_of (<[l := c]> h) q = Some mapping.
Proof.
  intros Hm Hl. destruct q as [q|]; [|exact Hm].
  unfold Store.mapping_of in *.
  destruct (h !! q) as [cell|] eqn:Hq; [|discriminate].
  rewrite lookup_insert_ne; [now rewrite Hq|].
  intros <-. apply Hl. apply elem_of_dom. rewrite Hq. eauto.
Qed.

(** X4. Two invocations in sequence that are handed the same mapping
    object: the second returns an object other than the first one, leaves
    the first result as it was, still finds the mapping unchanged, and
    returns what it would have returned had the first call not happened. *)
Theorem store_resolver_sequential_calls `{Platform}
    (clientId1 path1 clientId2 path2 : string) (q : option Store.loc)
    (h h1 : gmap Store.loc Store.cell) (mapping : option Js.object)
    (l1 : Store.loc) :
  Store.mapping_of h q = Some mapping ->
  Store.createEmbeddedWalletIframeLink clientId1 path1 q h = Some (l1, h1) ->
  Store.returned_URL (Store.createEmbeddedWalletIframeLink clientId2 path2 q h1)
  = Resolver.createEmbeddedWalletIframeLink clientId2 path2 mapping
  /\ Store.returned_URL (Store.createEmbeddedWalletIframeLink clientId2 path2 q h1)
     = Store.returned_URL (Store.createEmbeddedWalletIframeLink clientId2 path2 q h)
  /\ forall l2 h2,
       Store.createEmbeddedWalletIframeLink clientId2 path2 q h1 = Some (l2, h2) ->
       l2 <> l1
       /\ h2 !! l1 = h1 !! l1
       /\ Store.returned_URL (Some (l1, h2))
          = Resolver.createEmbeddedWalletIframeLink clientId1 path1 mapping
       /\ Store.mapping_of h2 q = Some mapping.
Proof.
  intros Hm Hfirst.
  rewrite (store_resolver_spec h clientId1 path1 q mapping Hm) in Hfirst.
  destruct (Resolver.createEmbeddedWalletIframeLink clientId1 path1 mapping)
    as [url1|] eqn:Hurl1; [|discriminate].
  injection Hfirst as <- <-.
  assert (Hfresh : fresh (dom h) ∉ dom h) by apply is_fresh.
  assert (Hm1 : Store.mapping_of (<[fresh (dom h) := Store.CUrl url1]> h) q
                = Some mapping) by now apply mapping_after_allocation.
  rewrite (store_resolver_spec _ clientId2 path2 q mapping Hm1).
  rewrite (store_resolver_spec h clientId2 path2 q mapping Hm).
  destruct (Resolver.createEmbeddedWalletIframeLink clientId2 path2 mapping)
    as [url2|].
  - split; [simpl; now rewrite lookup_insert_eq|].
    split; [simpl; now rewrite !lookup_insert_eq|].
    intros l2 h2 [= <- <-].
    set (h1 := <[fresh (dom h) := Store.CUrl url1]> h) in *.
    assert (Hin : fresh (dom h) ∈ dom h1).
    { unfold h1. rewrite dom_insert_L. set_solver. }
    assert (Hne : fresh (dom h1) <> fresh (dom h)).
    { intros Heq. apply (is_fresh (dom h1)). now rewrite Heq. }
    split; [exact Hne|].
    assert (Hkeep : <[fresh (dom h1) := Store.CUrl url2]> h1 !! fresh (dom h)
                    = h1 !! fresh (dom h)) by now apply lookup_insert_ne.
    split; [exact Hkeep|]. split.
    + simpl. rewrite Hkeep. unfold h1. now rewrite lookup_insert_eq.
    + apply mapping_after_allocation; [exact Hm1 | apply is_fresh].
  - split; [reflexivity|]. split; [reflexivity|]. intros l2 h2 [=].
Qed.

Lemma store_resolver_sequential_calls_witness :
  Store.returned_URL
    (@Store.createEmbeddedWalletIframeLink Example.paper "second" "/modal" (Some 0)
       (<[1 := Store.CUrl (mkURL "https://withpaper.com/embedded"
                                 [("clientId", "first"); ("theme", "dark")] "")]>
          Example.store1))
  = @Resolver.createEmbeddedWalletIframeLink Example.paper "second" "/modal"
      (Some Example.theme_dark).
Proof.
  apply (@store_resolver_sequential_calls Example.paper
           "first" "/embedded" "second" "/modal" (Some 0) Example.store1
           _ (Some Example.theme_dark) 1).
  - vm_compute. reflexivity.
  - vm_compute. reflexivity.
Defined.

(** ** The EmbeddedWallet class: construction, sessions and signers *)

Section WalletSteps.
Context {Data : Type}.
Import Wallet Signer.

Abbreviation world := (Wallet.world Data).

(** What [setChain] does to the store, step by step. *)
Lemma setChain_world (this : ref) (c : Chain) (w : world) wal :
  objects w !! this = Some (OWallet wal) ->
  exists g,
    setChain this c w
    = (Fulfilled tt,
       {| objects :=
            <[this := OWallet (with_gasless g (with_chain c wal))]>
              (<[g := OGasless {| gasless_chain := c;
                                  gasless_clientId := clientId wal;
                                  gasless_querier := walletManagerQuerier wal |}]>
                 (<[this := OWallet (with_chain c wal)]> (objects w)));
          effects := effects w |})
    /\ g <> this
    /\ (g ∉ dom (objects w)).
Proof.
  intros Hthis.
  unfold setChain, bind, assign, self, new.
  rewrite Hthis. simpl. rewrite lookup_insert_eq. simpl.
  set (o1 := <[this := _]> (objects w)).
  set (g := fresh (dom o1)).
  assert (Hfresh : forall r, r ∈ dom o1 -> r <> g).
  { intros r Hr Heq. apply (is_fresh (dom o1)). fold g. now rewrite <- Heq. }
  assert (Hg : g <> this).
  { intros Heq. apply (Hfresh this); [|congruence].
    unfold o1. rewrite dom_insert_L. set_solver. }
  rewrite (lookup_insert_ne _ g this) by congruence.
  unfold o1 at 1. rewrite lookup_insert_eq.
  exists g. split; [reflexivity|]. split; [exact Hg|].
  intros Hin. apply (Hfresh g); [|reflexivity].
  unfold o1. rewrite dom_insert_L. set_solver.
Qed.

Lemma setChain_step (this : ref) (c : Chain) (w : world) wal :
  wallet_at w this wal ->
  exists g,
    fst (setChain this c w) = Fulfilled tt
    /\ wallet_at (snd (setChain this c w)) this
         (with_gasless g (with_chain c wal))
    /\ gasless_in_sync (snd (setChain this c w))
         (with_gasless g (with_chain c wal))
    /\ effects (snd (setChain this c w)) = effects w
    /\ (g ∉ dom (objects w))
    /\ (forall r, r <> this -> r ∈ dom (objects w) ->
          objects (snd (setChain this c w)) !! r = objects w !! r).
Proof.
  intros [Hthis Hstore].
  destruct (setChain_world this c w wal Hthis) as (g & -> & Hg & Hfresh).
  assert (Hold : forall r, r ∈ dom (objects w) -> r <> g).
  { intros r Hr ->. contradiction. }
  exists g. cbn [fst snd objects effects].
  split; [reflexivity|]. split; [|split; [|split; [reflexivity|split; [exact Hfresh|]]]].
  - unfold wallet_at. cbn [objects localStorage with_gasless with_chain clientId].
    rewrite lookup_insert_eq. split; [reflexivity|].
    assert (Hs : localStorage wal <> this).
    { intros Heq. rewrite Heq in Hstore. congruence. }
    assert (Hsg : localStorage wal <> g).
    { apply Hold. apply elem_of_dom. rewrite Hstore. eauto. }
    rewrite !lookup_insert_ne by congruence. exact Hstore.
  - unfold gasless_in_sync.
    cbn [objects gasless with_gasless with_chain chain clientId walletManagerQuerier].
    rewrite lookup_insert_ne by congruence. now rewrite lookup_insert_eq.
  - intros r Hr Hin. pose proof (Hold r Hin).
    now rewrite !lookup_insert_ne by congruence.
Qed.

Lemma postWalletSetUp_world (this : ref) arg (w : world) wal :
  wallet_at w this wal ->
  postWalletSetUp this arg w
  = (Fulfilled {| address_walletAddress := walletAddress arg |},
     {| objects := objects w;
        effects := (effects w
                    ++ (if isIframeStorageEnabled arg then []
                        else [SaveDeviceShare (clientId wal)
                                (deviceShareStored arg)]))%list |}).
Proof.
  intros [Hthis Hstore].
  unfold postWalletSetUp, bind, self, saveDeviceShare, perform, ret.
  destruct (isIframeStorageEnabled arg); simpl.
  - rewrite app_nil_r. now destruct w.
  - now rewrite Hthis, Hstore.
Qed.

End WalletSteps.

Section SessionFacts.
Context {Data Networkish : Type}.
Variable ChainToPublicRpc : Wallet.Chain -> option Networkish.
Variable remote : list (Wallet.Effect Data)
                  -> Wallet.Outcome Data (Wallet.UserStatus Data).
Import Wallet Signer.

Abbreviation world := (Wallet.world Data).

Lemma getUserWalletStatus_world (this : ref) (w : world) wal :
  objects w !! this = Some (OWallet wal) ->
  snd (getUserWalletStatus remote this w)
  = {| objects := objects w;
       effects := (effects w
                   ++ [RemoteCall (walletManagerQuerier wal)
                         "getUserStatus" None])%list |}.
Proof.
  intros Hthis. unfold getUserWalletStatus, bind, self, call. rewrite Hthis.
  cbv zeta. destruct (remote _) as [userStatus|e]; [|reflexivity].
  now destruct (UserWalletStatus_eqb _ _).
Qed.

Lemma getEthersJsSigner_world (this : ref) rpcEndpoint (w : world) wal :
  objects w !! this = Some (OWallet wal) ->
  getEthersJsSigner ChainToPublicRpc this rpcEndpoint w
  = (Fulfilled
       {| signer_clientId := clientId wal;
          signer_provider :=
            {| provider_network :=
                 match rpcEndpoint with
                 | Some endpoint => Some endpoint
                 | None => ChainToPublicRpc (chain wal)
                 end |};
          signer_querier := walletManagerQuerier wal |},
     w).
Proof.
  intros Hthis. unfold getEthersJsSigner, bind, self, ret. rewrite Hthis.
  now destruct rpcEndpoint.
Qed.

Lemma session_effects_depend_on_identity (wal wal' : EmbeddedWallet)
    (calls : list (invocation Networkish)) :
  clientId wal' = clientId wal ->
  walletManagerQuerier wal' = walletManagerQuerier wal ->
  @session_effects Data Networkish wal' calls = session_effects wal calls.
Proof. intros Hc Hq. unfold session_effects. now rewrite Hc, Hq. Qed.

(** One call keeps the wallet well formed. *)
Lemma invoke_step (this : ref) (i : invocation Networkish) (w : world) wal :
  wallet_at w this wal -> gasless_in_sync w wal ->
  exists wal',
    wallet_at (invoke ChainToPublicRpc remote this i w) this wal'
    /\ gasless_in_sync (invoke ChainToPublicRpc remote this i w) wal'
    /\ clientId wal' = clientId wal
    /\ walletManagerQuerier wal' = walletManagerQuerier wal
    /\ localStorage wal' = localStorage wal
    /\ chain wal' = current_chain [i] (chain wal)
    /\ effects (invoke ChainToPublicRpc remote this i w)
       = (effects w ++ session_effects wal [i])%list
    /\ (forall r, r <> this -> r ∈ dom (objects w) ->
          objects (invoke ChainToPublicRpc remote this i w) !! r = objects w !! r).
Proof.
  intros Hwal Hsync. pose proof Hwal as [Hthis Hstore].
  destruct i as [arg| |c|rpcEndpoint]; cbn [invoke].
  - rewrite (postWalletSetUp_world this arg w wal Hwal). exists wal.
    cbn [snd session_effects flat_map current_chain fold_left].
    rewrite app_nil_r. repeat split; auto.
  - rewrite (getUserWalletStatus_world this w wal Hthis). exists wal.
    cbn [session_effects flat_map current_chain fold_left].
    repeat split; auto.
  - destruct (setChain_step this c w wal Hwal)
      as (g & _ & Hwal' & Hsync' & Heff & _ & Hframe).
    exists (with_gasless g (with_chain c wal)).
    cbn [session_effects flat_map current_chain fold_left].
    rewrite app_nil_r.
    split; [exact Hwal'|]. split; [exact Hsync'|]. repeat split; auto.
  - rewrite (getEthersJsSigner_world this rpcEndpoint w wal Hthis). exists wal.
    cbn [snd session_effects flat_map current_chain fold_left].
    rewrite app_nil_r. repeat split; auto.
Qed.

(** A session keeps the wallet well formed, and does what
    [session_effects] says. *)
Lemma session_spec (this : ref) (calls : list (invocation Networkish))
    (w : world) wal :
  wallet_at w this wal -> gasless_in_sync w wal ->
  exists wal',
    wallet_at (session ChainToPublicRpc remote this calls w) this wal'
    /\ gasless_in_sync (session ChainToPublicRpc remote this calls w) wal'
    /\ clientId wal' = clientId wal
    /\ walletManagerQuerier wal' = walletManagerQuerier wal
    /\ localStorage wal' = localStorage wal
    /\ chain wal' = current_chain calls (chain wal)
    /\ effects (session ChainToPublicRpc remote this calls w)
       = (effects w ++ session_effects wal calls)%list.
Proof.
  revert w wal. induction calls as [|i calls IH]; intros w wal Hwal Hsync.
  - exists wal. cbn. rewrite app_nil_r. repeat split; auto; apply Hwal.
  - destruct (invoke_step this i w wal Hwal Hsync)
      as (wal1 & Hwal1 & Hsync1 & Hc & Hq & Hs & Hchain & Heff & _).
    destruct (IH _ wal1 Hwal1 Hsync1)
      as (wal' & Hwal' & Hsync' & Hc' & Hq' & Hs' & Hchain' & Heff').
    exists wal'. unfold session in *. cbn [fold_left].
    split; [exact Hwal'|]. split; [exact Hsync'|].
    split; [congruence|]. split; [congruence|]. split; [congruence|].
    split.
    + rewrite Hchain', Hchain. unfold current_chain. reflexivity.
    + rewrite Heff', Heff.
      rewrite (session_effects_depend_on_identity wal wal1 calls Hc Hq).
      rewrite <- app_assoc. f_equal.
      unfold session_effects. cbn [flat_map]. now rewrite app_nil_r.
Qed.

End SessionFacts.

(** X7. The constructor allocates three objects that did not exist before
    and are different from one another: the wallet, a maker bound to the
    wallet's chain, client id and querier, and a local storage scoped to the
    client id.  It performs no effect and changes no object that existed. *)
Theorem constructor_allocates_a_consistent_wallet {Data : Type}
    (clientId : string) (chain : Wallet.Chain) (querier : Wallet.ref)
    (w : Wallet.world Data) :
  exists this g s w',
    Wallet.constructor clientId chain querier w = (Wallet.Fulfilled this, w')
    /\ Wallet.wallet_at w' this
         {| Wallet.clientId := clientId; Wallet.chain := chain;
            Wallet.walletManagerQuerier := querier;
            Wallet.localStorage := s; Wallet.gasless := g |}
    /\ Signer.gasless_in_sync w'
         {| Wallet.clientId := clientId; Wallet.chain := chain;
            Wallet.walletManagerQuerier := querier;
            Wallet.localStorage := s; Wallet.gasless := g |}
    /\ (this ∉ dom (Wallet.objects w))
    /\ (g ∉ dom (Wallet.objects w))
    /\ (s ∉ dom (Wallet.objects w))
    /\ this <> g /\ this <> s /\ g <> s
    /\ dom (Wallet.objects w') = {[this; g; s]} ∪ dom (Wallet.objects w)
    /\ (forall r, r ∈ dom (Wallet.objects w) ->
          Wallet.objects w' !! r = Wallet.objects w !! r)
    /\ Wallet.effects w' = Wallet.effects w.
Proof.
  unfold Wallet.constructor, Wallet.bind, Wallet.new, Wallet.assign, Wallet.ret.
  simpl.
  set (o0 := Wallet.objects w).
  set (this := fresh (dom o0)).
  set (wal0 := Wallet.OWallet _).
  set (o1 := <[this := wal0]> o0).
  set (g := fresh (dom o1)).
  assert (Hthis : this ∉ dom o0) by apply is_fresh.
  assert (Hg1 : g ∉ dom o1) by apply is_fresh.
  assert (Hdom1 : forall r, r ∈ dom o1 <-> r = this \/ r ∈ dom o0).
  { intros r. unfold o1. rewrite dom_insert_L, elem_of_union, elem_of_singleton.
    tauto. }
  assert (Hg : g <> this).
  { intros Heq. apply Hg1. apply Hdom1. now left. }
  assert (Hg0 : g ∉ dom o0).
  { intros Hin. apply Hg1. apply Hdom1. now right. }
  rewrite (lookup_insert_ne _ g this) by exact Hg.
  unfold o1 at 1. rewrite lookup_insert_eq. unfold wal0. simpl.
  set (o3 := <[this := _]> (<[g := _]> o1)).
  set (s := fresh (dom o3)).
  assert (Hdom3 : forall r, r ∈ dom o3 <-> r = this \/ r = g \/ r ∈ dom o0).
  { intros r. unfold o3.
    rewrite !dom_insert_L, !elem_of_union, !elem_of_singleton, Hdom1. tauto. }
  assert (Hs3 : s ∉ dom o3) by apply is_fresh.
  assert (Hs : s <> this).
  { intros Heq. apply Hs3. apply Hdom3. now left. }
  assert (Hsg : s <> g).
  { intros Heq. apply Hs3. apply Hdom3. right. now left. }
  assert (Hs0 : s ∉ dom o0).
  { intros Hin. apply Hs3. apply Hdom3. right. now right. }
  rewrite (lookup_insert_ne _ s this) by exact Hs.
  unfold o3 at 1. rewrite lookup_insert_eq. simpl.
  exists this, g, s. eexists. split; [reflexivity|].
  unfold Wallet.wallet_at, Signer.gasless_in_sync. simpl.
  rewrite lookup_insert_eq.
  rewrite (lookup_insert_ne _ this s) by (intros Heq; now apply Hs).
  rewrite lookup_insert_eq.
  rewrite (lookup_insert_ne _ this g) by (intros Heq; now apply Hg).
  rewrite (lookup_insert_ne _ s g) by exact Hsg.
  unfold o3 at 1.
  rewrite (lookup_insert_ne _ this g) by (intros Heq; now apply Hg).
  rewrite lookup_insert_eq.
  split; [split; reflexivity|]. split; [reflexivity|].
  split; [exact Hthis|]. split; [exact Hg0|]. split; [exact Hs0|].
  split; [intros Heq; now apply Hg|]. split; [intros Heq; now apply Hs|].
  split; [intros Heq; now apply Hsg|]. split; [|split; [|reflexivity]].
  - apply set_eq. intros r.
    rewrite !dom_insert_L, !elem_of_union, !elem_of_singleton, Hdom3. tauto.
  - intros r Hr.
    assert (Hr1 : r <> this) by (intros Heq; apply Hthis; now rewrite <- Heq).
    assert (Hr2 : r <> g) by (intros Heq; apply Hg0; now rewrite <- Heq).
    assert (Hr3 : r <> s) by (intros Heq; apply Hs0; now rewrite <- Heq).
    rewrite (lookup_insert_ne _ this r) by (intros Heq; now apply Hr1).
    rewrite (lookup_insert_ne _ s r) by (intros Heq; now apply Hr3).
    unfold o3. rewrite (lookup_insert_ne _ this r) by (intros Heq; now apply Hr1).
    rewrite (lookup_insert_ne _ g r) by (intros Heq; now apply Hr2).
    unfold o1. now rewrite (lookup_insert_ne _ this r) by (intros Heq; now apply Hr1).
Qed.

(** X8. Whatever methods are called on a wallet, in whatever order, the
    wallet keeps the client id, the querier and the local storage it was
    constructed with; its chain is the one the last [setChain] asked for; and
    its [gasless] maker is bound to that chain and to the wallet's client id
    and querier. *)
Theorem wallet_session_invariant {Data Networkish : Type}
    (ChainToPublicRpc : Wallet.Chain -> option Networkish)
    (remote : list (Wallet.Effect Data)
              -> Wallet.Outcome Data (Wallet.UserStatus Data))
    (this : Wallet.ref) (calls : list (Signer.invocation Networkish))
    (w : Wallet.world Data) (wal : Wallet.EmbeddedWallet) :
  Wallet.wallet_at w this wal ->
  Signer.gasless_in_sync w wal ->
  exists g,
    Wallet.wallet_at (Signer.session ChainToPublicRpc remote this calls w) this
      {| Wallet.clientId := Wallet.clientId wal;
         Wallet.chain := Signer.current_chain calls (Wallet.chain wal);
         Wallet.walletManagerQuerier := Wallet.walletManagerQuerier wal;
         Wallet.localStorage := Wallet.localStorage wal;
         Wallet.gasless := g |}
    /\ Wallet.objects (Signer.session ChainToPublicRpc remote this calls w) !! g
       = Some (Wallet.OGasless
                 {| Wallet.gasless_chain :=
                      Signer.current_chain calls (Wallet.chain wal);
                    Wallet.gasless_clientId := Wallet.clientId wal;
                    Wallet.gasless_querier := Wallet.walletManagerQuerier wal |}).
Proof.
  intros Hwal Hsync.
  destruct (session_spec ChainToPublicRpc remote this calls w wal Hwal Hsync)
    as (wal' & Hwal' & Hsync' & Hc & Hq & Hs & Hchain & _).
  exists (Wallet.gasless wal').
  unfold Signer.gasless_in_sync in Hsync'.
  rewrite Hchain, Hc, Hq in Hsync'. split; [|exact Hsync'].
  destruct wal' as [c ch q s g]. simpl in *. now subst.
Qed.

Lemma wallet_session_invariant_witness :
  exists g,
    Wallet.wallet_at
      (Signer.session Scenario.public_rpc Example.remote 0 Scenario.calls
         Example.wallet_world) 0
      {| Wallet.clientId := "client-a"; Wallet.chain := "Goerli";
         Wallet.walletManagerQuerier := 9; Wallet.localStorage := 2;
         Wallet.gasless := g |}
    /\ Wallet.objects
         (Signer.session Scenario.public_rpc Example.remote 0 Scenario.calls
            Example.wallet_world) !! g
       = Some (Wallet.OGasless
                 {| Wallet.gasless_chain := "Goerli";
                    Wallet.gasless_clientId := "client-a";
                    Wallet.gasless_querier := 9 |}).
Proof.
  apply (wallet_session_invariant Scenario.public_rpc Example.remote 0
           Scenario.calls Example.wallet_world Example.the_wallet).
  - split; vm_compute; reflexivity.
  - vm_compute. reflexivity.
Defined.

(** X9. The effects of a session on a wallet are, in order, one
    [getUserStatus] call with params [undefined] on the wallet's querier per
    [getUserWalletStatus], and one saved device share under the wallet's
    client id per [postWalletSetUp] whose [isIframeStorageEnabled] is false;
    [setChain] and [getEthersJsSigner] contribute none, and what was
    recorded before stays. *)
Theorem wallet_session_effects {Data Networkish : Type}
    (ChainToPublicRpc : Wallet.Chain -> option Networkish)
    (remote : list (Wallet.Effect Data)
              -> Wallet.Outcome Data (Wallet.UserStatus Data))
    (this : Wallet.ref) (calls : list (Signer.invocation Networkish))
    (w : Wallet.world Data) (wal : Wallet.EmbeddedWallet) :
  Wallet.wallet_at w this wal ->
  Signer.gasless_in_sync w wal ->
  Wallet.effects (Signer.session ChainToPublicRpc remote this calls w)
  = (Wallet.effects w ++ Signer.session_effects wal calls)%list.
Proof.
  intros Hwal Hsync.
  now destruct (session_spec ChainToPublicRpc remote this calls w wal Hwal Hsync)
    as (wal' & _ & _ & _ & _ & _ & _ & Heff).
Qed.

Lemma wallet_session_effects_witness :
  Wallet.effects
    (Signer.session Scenario.public_rpc Example.remote 0 Scenario.calls
       Example.wallet_world)
  = [Wallet.RemoteCall 9 "getUserStatus" None;
     Wallet.SaveDeviceShare "client-a" "share-1";
     Wallet.RemoteCall 9 "getUserStatus" None].
Proof.
  rewrite (wallet_session_effects Scenario.public_rpc Example.remote 0
             Scenario.calls Example.wallet_world Example.the_wallet).
  - reflexivity.
  - split; vm_compute; reflexivity.
  - vm_compute. reflexivity.
Defined.

(** X10. [setChain] replaces the maker, it does not update it: the maker
    the wallet had before is still in the store, bound to the chain it was
    built for, and the wallet's new maker is another object.  Whoever kept
    the old [gasless] keeps a maker of the old chain. *)
Theorem setChain_leaves_the_old_maker {Data : Type}
    (this : Wallet.ref) (chain : Wallet.Chain)
    (w : Wallet.world Data) (wal : Wallet.EmbeddedWallet) :
  Wallet.wallet_at w this wal ->
  Signer.gasless_in_sync w wal ->
  exists wal',
    Wallet.objects (snd (Wallet.setChain this chain w)) !! this
    = Some (Wallet.OWallet wal')
    /\ Wallet.gasless wal' <> Wallet.gasless wal
    /\ Wallet.objects (snd (Wallet.setChain this chain w)) !! Wallet.gasless wal
       = Some (Wallet.OGasless
                 {| Wallet.gasless_chain := Wallet.chain wal;
                    Wallet.gasless_clientId := Wallet.clientId wal;
                    Wallet.gasless_querier := Wallet.walletManagerQuerier wal |})
    /\ Wallet.objects (snd (Wallet.setChain this chain w)) !! Wallet.gasless wal'
       = Some (Wallet.OGasless
                 {| Wallet.gasless_chain := chain;
                    Wallet.gasless_clientId := Wallet.clientId wal;
                    Wallet.gasless_querier := Wallet.walletManagerQuerier wal |}).
Proof.
  intros Hwal Hsync. pose proof Hwal as [Hthis _].
  unfold Signer.gasless_in_sync in Hsync.
  destruct (setChain_step this chain w wal Hwal)
    as (g & _ & [Hthis' _] & Hsync' & _ & Hfresh & Hframe).
  exists (Wallet.with_gasless g (Wallet.with_chain chain wal)).
  assert (Hold : Wallet.gasless wal ∈ dom (Wallet.objects w)).
  { apply elem_of_dom. rewrite Hsync. eauto. }
  split; [exact Hthis'|]. split; [|split].
  - simpl. intros ->. contradiction.
  - rewrite Hframe; [exact Hsync | | exact Hold].
    intros Heq. rewrite Heq in Hsync. congruence.
  - exact Hsync'.
Qed.

Lemma setChain_leaves_the_old_maker_witness :
  exists wal',
    Wallet.objects (snd (Wallet.setChain 0 "Mumbai" Example.wallet_world)) !! 0
    = Some (Wallet.OWallet wal')
    /\ Wallet.gasless wal' <> 1
    /\ Wallet.objects (snd (Wallet.setChain 0 "Mumbai" Example.wallet_world)) !! 1
       = Some (Wallet.OGasless
                 {| Wallet.gasless_chain := "Polygon";
                    Wallet.gasless_clientId := "client-a";
                    Wallet.gasless_querier := 9 |})
    /\ Wallet.objects (snd (Wallet.setChain 0 "Mumbai" Example.wallet_world))
         !! Wallet.gasless wal'
       = Some (Wallet.OGasless
                 {| Wallet.gasless_chain := "Mumbai";
                    Wallet.gasless_clientId := "client-a";
                    Wallet.gasless_querier := 9 |}).
Proof.
  apply (setChain_leaves_the_old_maker 0 "Mumbai" Example.wallet_world
           Example.the_wallet).
  - split; vm_compute; reflexivity.
  - vm_compute. reflexivity.
Defined.

Section UserObjectFacts.
Context {Data : Type}.
Import Wallet.

Lemma keys_after_set_field k v (o : user_object Data) :
  map fst (set_field k v o)
  = if existsb (fun k' => String.eqb k' k) (map fst o)
    then map fst o
    else (map fst o ++ [k])%list.
Proof.
  induction o as [|[k' v'] o IH]; simpl; [reflexivity|].
  destruct (String.eqb k' k) eqn:Hk; simpl; [reflexivity|].
  rewrite IH. now destruct (existsb _ _).
Qed.

Lemma others_after_set_field k v (o : user_object Data) :
  List.filter (fun p => negb (String.eqb (fst p) k)) (set_field k v o)
  = List.filter (fun p => negb (String.eqb (fst p) k)) o.
Proof.
  induction o as [|[k' v'] o IH]; simpl.
  - now rewrite String.eqb_refl.
  - destruct (String.eqb k' k) eqn:Hk; simpl; rewrite Hk; simpl;
      [reflexivity | now rewrite IH].
Qed.

End UserObjectFacts.

(** X11. When the response reports an initialized wallet, the user object
    that [getUserWalletStatus] returns has the keys of the response's user
    in their order, with [wallet] added at the end if the response had no
    such key and kept in its place if it had one; every other field is the
    response's, in the same order; and for a response without a user the
    object is just [{wallet: this}]. *)
Theorem getUserWalletStatus_user_object {Data : Type}
    (remote : list (Wallet.Effect Data)
              -> Wallet.Outcome Data (Wallet.UserStatus Data))
    (this : Wallet.ref) (w : Wallet.world Data) (wal : Wallet.EmbeddedWallet)
    (userStatus : Wallet.UserStatus Data) :
  Wallet.objects w !! this = Some (Wallet.OWallet wal) ->
  remote (Wallet.effects w
          ++ [Wallet.RemoteCall (Wallet.walletManagerQuerier wal)
                "getUserStatus" None])%list
  = Wallet.Fulfilled userStatus ->
  Wallet.status userStatus = Wallet.LOGGED_IN_WALLET_INITIALIZED ->
  exists u,
    fst (Wallet.getUserWalletStatus remote this w)
    = Wallet.Fulfilled {| Wallet.status := Wallet.LOGGED_IN_WALLET_INITIALIZED;
                          Wallet.user := Some u |}
    /\ map fst u
       = (if existsb (fun k => String.eqb k "wallet")
                     (map fst (Wallet.spread (Wallet.user userStatus)))
          then map fst (Wallet.spread (Wallet.user userStatus))
          else (map fst (Wallet.spread (Wallet.user userStatus)) ++ ["wallet"])%list)
    /\ List.filter (fun p => negb (String.eqb (fst p) "wallet")) u
       = List.filter (fun p => negb (String.eqb (fst p) "wallet"))
                     (Wallet.spread (Wallet.user userStatus))
    /\ (Wallet.user userStatus = None -> u = [("wallet", Wallet.FWallet this)]).
Proof.
  intros Hthis Hremote Hstatus.
  unfold Wallet.getUserWalletStatus, Wallet.bind, Wallet.self, Wallet.call.
  rewrite Hthis. cbv zeta. rewrite Hremote, Hstatus. simpl.
  eexists. split; [reflexivity|].
  split; [apply keys_after_set_field|].
  split; [apply others_after_set_field|].
  intros ->. reflexivity.
Qed.

Lemma getUserWalletStatus_user_object_witness :
  exists u,
    fst (Wallet.getUserWalletStatus Example.remote 0 Example.wallet_world)
    = Wallet.Fulfilled {| Wallet.status := Wallet.LOGGED_IN_WALLET_INITIALIZED;
                          Wallet.user := Some u |}
    /\ map fst u = ["authDetails"; "walletAddress"; "wallet"].
Proof.
  destruct (getUserWalletStatus_user_object Example.remote 0 Example.wallet_world
              Example.the_wallet Example.initialized_user)
    as (u & Hu & Hkeys & _).
  - vm_compute. reflexivity.
  - reflexivity.
  - reflexivity.
  - exists u. split; [exact Hu | exact Hkeys].
Defined.

(** X12. After any session of calls on a wallet, [getEthersJsSigner]
    returns a signer with the client id and the querier the wallet was
    constructed with, on the given [rpcEndpoint] if there is one and
    otherwise on the public RPC of the chain the last [setChain] asked for;
    it performs no effect and changes no object. *)
Theorem signer_follows_the_current_chain {Data Networkish : Type}
    (ChainToPublicRpc : Wallet.Chain -> option Networkish)
    (remote : list (Wallet.Effect Data)
              -> Wallet.Outcome Data (Wallet.UserStatus Data))
    (this : Wallet.ref) (calls : list (Signer.invocation Networkish))
    (rpcEndpoint : option Networkish)
    (w : Wallet.world Data) (wal : Wallet.EmbeddedWallet) :
  Wallet.wallet_at w this wal ->
  Signer.gasless_in_sync w wal ->
  Signer.getEthersJsSigner ChainToPublicRpc this rpcEndpoint
    (Signer.session ChainToPublicRpc remote this calls w)
  = (Wallet.Fulfilled
       {| Signer.signer_clientId := Wallet.clientId wal;
          Signer.signer_provider :=
            {| Signer.provider_network :=
                 match rpcEndpoint with
                 | Some endpoint => Some endpoint
                 | None =>
                     ChainToPublicRpc
                       (Signer.current_chain calls (Wallet.chain wal))
                 end |};
          Signer.signer_querier := Wallet.walletManagerQuerier wal |},
     Signer.session ChainToPublicRpc remote this calls w).
Proof.
  intros Hwal Hsync.
  destruct (session_spec ChainToPublicRpc remote this calls w wal Hwal Hsync)
    as (wal' & [Hthis' _] & _ & Hc & Hq & _ & Hchain & _).
  rewrite (getEthersJsSigner_world ChainToPublicRpc this rpcEndpoint _ wal' Hthis').
  now rewrite Hc, Hq, Hchain.
Qed.

Lemma signer_follows_the_current_chain_witness :
  fst (Signer.getEthersJsSigner Scenario.public_rpc 0 None
         (Signer.session Scenario.public_rpc Example.remote 0
            [Signer.GetUserWalletStatus; Signer.SetChain "Mumbai"]
            Example.wallet_world))
  = Wallet.Fulfilled
      {| Signer.signer_clientId := "client-a";
         Signer.signer_provider :=
           {| Signer.provider_network := Some "https://rpc-mumbai.maticvigil.com" |};
         Signer.signer_querier := 9 |}.
Proof.
  rewrite (signer_follows_the_current_chain Scenario.public_rpc Example.remote 0
             [Signer.GetUserWalletStatus; Signer.SetChain "Mumbai"] None
             Example.wallet_world Example.the_wallet).
  - reflexivity.
  - split; vm_compute; reflexivity.
  - vm_compute. reflexivity.
Defined.

(** X13. After any session of calls on a wallet, [getAddress] is answered by
    a signer on the public RPC of the chain the last [setChain] asked for,
    with the wallet's client id and querier: it does exactly what that
    signer's [getAddress] does, and a custom endpoint cannot be given. *)
Theorem getAddress_asks_a_signer_on_the_current_chain {Data Networkish : Type}
    (ChainToPublicRpc : Wallet.Chain -> option Networkish)
    (EthersSigner_getAddress : Signer.EthersSigner Networkish
                               -> @Wallet.M Data string)
    (remote : list (Wallet.Effect Data)
              -> Wallet.Outcome Data (Wallet.UserStatus Data))
    (this : Wallet.ref) (calls : list (Signer.invocation Networkish))
    (w : Wallet.world Data) (wal : Wallet.EmbeddedWallet) :
  Wallet.wallet_at w this wal ->
  Signer.gasless_in_sync w wal ->
  Signer.getAddress ChainToPublicRpc EthersSigner_getAddress this
    (Signer.session ChainToPublicRpc remote this calls w)
  = EthersSigner_getAddress
      {| Signer.signer_clientId := Wallet.clientId wal;
         Signer.signer_provider :=
           {| Signer.provider_network :=
                ChainToPublicRpc (Signer.current_chain calls (Wallet.chain wal)) |};
         Signer.signer_querier := Wallet.walletManagerQuerier wal |}
      (Signer.session ChainToPublicRpc remote this calls w).
Proof.
  intros Hwal Hsync.
  destruct (session_spec ChainToPublicRpc remote this calls w wal Hwal Hsync)
    as (wal' & [Hthis' _] & _ & Hc & Hq & _ & Hchain & _).
  unfold Signer.getAddress. unfold Wallet.bind at 1.
  rewrite (getEthersJsSigner_world ChainToPublicRpc this None _ wal' Hthis').
  now rewrite Hc, Hq, Hchain.
Qed.

Lemma getAddress_asks_a_signer_on_the_current_chain_witness :
  Signer.getAddress Scenario.public_rpc Scenario.signer_getAddress 0
    (Signer.session Scenario.public_rpc Example.remote 0
       [Signer.SetChain "Mumbai"] Example.wallet_world)
  = Scenario.signer_getAddress
      {| Signer.signer_clientId := "client-a";
         Signer.signer_provider :=
           {| Signer.provider_network := Some "https://rpc-mumbai.maticvigil.com" |};
         Signer.signer_querier := 9 |}
      (Signer.session Scenario.public_rpc Example.remote 0
         [Signer.SetChain "Mumbai"] Example.wallet_world).
Proof.
  apply (getAddress_asks_a_signer_on_the_current_chain Scenario.public_rpc
           Scenario.signer_getAddress Example.remote 0
           [Signer.SetChain "Mumbai"] Example.wallet_world Example.the_wallet).
  - split; vm_compute; reflexivity.
  - vm_compute. reflexivity.
Defined.
